(** * Budget & Debt Coach: the debt-amortization simulator

    A shallow embedding of the loan payoff calculations of
    [src/budget_app.py] ([calculate_payoff], [snowball], [avalanche],
    [simulate]) and the properties its specification states about them.

    Numbers.  The Python code computes on [int] and [float] values.  Here
    every monetary amount and rate is an exact rational ([Qc], the
    canonical rationals, so that equal amounts are equal terms); month
    counters are [nat].  Rounding of binary floating point is not
    modelled, and the properties are chosen among those that do not
    depend on it: the order and the sign of amounts, which branch, loan
    or record the code takes, the number of months where it follows from
    these, and the equality of two runs that go through the same
    operations.  The amounts of an example are given by bounds, not by
    their exact values, and a count of months that depends on exact sums
    is stated for whole amounts, which the code adds and subtracts
    without rounding.

    Mutation.  Loan records are Python dictionaries, updated in place.
    Two models of [simulate] are given: a value-level one, in which the
    private copies made on entry are a [list loan] updated functionally,
    and a store-level one, in which loan lists are lists of references
    into a store of records; the second is shown to compute the first and
    to leave the caller's records alone. *)

From Stdlib Require Import QArith Qcanon Lqa Lia Bool Sorted Ascii.
From stdpp Require Import base option list numbers strings sorting.

Open Scope Qc_scope.

(** ** Rationals: comparisons as the code uses them *)

Module Num.

(** [x < y] and [x <= y] as boolean tests. *)
Definition ltb (x y : Qc) : bool :=
  match x ?= y with Lt => true | _ => false end.

Definition leb (x y : Qc) : bool :=
  match x ?= y with Gt => false | _ => true end.

(** Python's [min(a, b)] returns [a] unless [b < a]; [max(a, b)] returns
    [a] unless [b > a]. *)
Definition py_min (a b : Qc) : Qc := if ltb b a then b else a.
Definition py_max (a b : Qc) : Qc := if ltb a b then b else a.

(** An integer literal. *)
Definition lit (z : Z) : Qc := Qc_of_Z z.

End Num.

(** ** Results and loops *)

(** Python exceptions the modelled code could raise. *)
Inductive exn := IndexError | DanglingRef.

(** The outcome of running a piece of code with a bound on the number of
    loop iterations: a value, an exception, or the bound was reached. *)
Inductive result (A : Type) : Type :=
| Ret (a : A)
| Raise (e : exn)
| OutOfFuel.
Arguments Ret {A} a.
Arguments Raise {A} e.
Arguments OutOfFuel {A}.

Definition bind {A B} (m : result A) (k : A -> result B) : result B :=
  match m with
  | Ret a => k a
  | Raise e => Raise e
  | OutOfFuel => OutOfFuel
  end.

Notation "'let*' x ':=' m 'in' k" := (bind m (fun x => k))
  (at level 10, x name, m at level 100, k at level 200, only parsing).

(** [while guard: body], run for at most [fuel] iterations. *)
Fixpoint while_loop {S : Type} (guard : S -> bool) (body : S -> result S)
    (fuel : nat) (s : S) : result S :=
  if guard s then
    match fuel with
    | O => OutOfFuel
    | Datatypes.S fuel' => let* s' := body s in while_loop guard body fuel' s'
    end
  else Ret s.

(** The state after at most [n] iterations of the same loop (fewer if the
    guard fails earlier). *)
Fixpoint iterations {S : Type} (guard : S -> bool) (body : S -> result S)
    (n : nat) (s : S) : result S :=
  match n with
  | O => Ret s
  | Datatypes.S n' =>
      if guard s then (let* s' := body s in iterations guard body n' s')
      else Ret s
  end.

(** The safety cap on months, in both loops. *)
Definition cap : nat := 600.

(** ** [calculate_payoff] *)

Module Payoff.

Record state := State {
  balance : Qc;
  months : nat;
  total_interest : Qc
}.

(** [balance > 0 and months < 600] *)
Definition guard (s : state) : bool :=
  Num.ltb 0 (balance s) && (months s <? cap)%nat.

(** One iteration of the [while] body. *)
Definition body (rate monthly_payment : Qc) (s : state) : state :=
  let interest := balance s * (rate / Num.lit 100 / Num.lit 12) in
  let balance1 := balance s + interest in
  let balance2 := balance1 - monthly_payment in
  let balance3 := if Num.ltb balance2 0 then 0 else balance2 in
  State balance3 (S (months s)) (total_interest s + interest).

Definition init (balance : Qc) : state := State balance 0 0.

Definition loop (fuel : nat) (rate monthly_payment : Qc) (s : state)
  : result state :=
  while_loop guard (fun s => Ret (body rate monthly_payment s)) fuel s.

Definition after (n : nat) (rate monthly_payment : Qc) (s : state)
  : result state :=
  iterations guard (fun s => Ret (body rate monthly_payment s)) n s.

(** The months left before the cap. *)
Definition measure (s : state) : nat := cap - months s.

End Payoff.

Definition calculate_payoff (balance rate monthly_payment : Qc)
  : result (nat * Qc) :=
  let* s := Payoff.loop cap rate monthly_payment (Payoff.init balance) in
  Ret (Payoff.months s, Payoff.total_interest s).

(** ** Loans *)

(** A loan dictionary [{"name": .., "balance": .., "rate": ..,
    "min_payment": ..}]. *)
Record loan := Loan {
  name : string;
  balance : Qc;
  rate : Qc;
  min_payment : Qc
}.

(** [loan["balance"] = b] *)
Definition set_balance (l : loan) (b : Qc) : loan :=
  Loan (name l) b (rate l) (min_payment l).

(** [loan["balance"] > 0] *)
Definition positive (l : loan) : bool := Num.ltb 0 (balance l).

(** ** [sorted]

    Python's [sorted(xs, key=k, reverse=r)] is a stable sort that compares
    keys with [<] only; with [reverse=True] it reverses the list, sorts it
    the same way and reverses the outcome, which keeps equal keys in their
    input order.  The stable sort is modelled by insertion. *)

Fixpoint insert_by {A : Type} (key : A -> Qc) (x : A) (l : list A) : list A :=
  match l with
  | [] => [x]
  | y :: l' =>
      if Num.ltb (key y) (key x) then y :: insert_by key x l' else x :: y :: l'
  end.

Fixpoint stable_sort {A : Type} (key : A -> Qc) (l : list A) : list A :=
  match l with
  | [] => []
  | x :: l' => insert_by key x (stable_sort key l')
  end.

Definition sorted {A : Type} (key : A -> Qc) (reverse : bool) (l : list A)
  : list A :=
  if reverse then list.reverse (stable_sort key (list.reverse l))
  else stable_sort key l.

(** ** [simulate], on values *)

Module Sim.

Record state := State {
  loans : list loan;
  months : nat;
  total_interest : Qc
}.

(** The body of [for loan in loans], for one loan; [total_interest] and
    [extra_left] are threaded through. *)
Definition visit (l : loan) (total_interest extra_left : Qc)
  : loan * Qc * Qc :=
  if Num.leb (balance l) 0 then (l, total_interest, extra_left)
  else
    let interest := balance l * (rate l / Num.lit 100 / Num.lit 12) in
    let l1 := set_balance l (balance l + interest) in
    let total_interest := total_interest + interest in
    let pay := Num.py_min (min_payment l1) (balance l1) in
    let l2 := set_balance l1 (balance l1 - pay) in
    (l2, total_interest, extra_left - pay).

Fixpoint for_loans (ls : list loan) (total_interest extra_left : Qc)
  : list loan * Qc * Qc :=
  match ls with
  | [] => ([], total_interest, extra_left)
  | l :: rest =>
      let '(l', total_interest, extra_left) :=
        visit l total_interest extra_left in
      let '(rest', total_interest, extra_left) :=
        for_loans rest total_interest extra_left in
      (l' :: rest', total_interest, extra_left)
  end.

(** [next((l for l in loans if l["balance"] > 0), None)], as a position
    in the list. *)
Fixpoint next_positive (ls : list loan) : option nat :=
  match ls with
  | [] => None
  | l :: rest => if positive l then Some O else S <$> next_positive rest
  end.

(** [loans[0] if loans[0]["balance"] > 0 else next(...)] *)
Definition target_loan (ls : list loan) : result (option nat) :=
  match ls with
  | [] => Raise IndexError
  | l0 :: _ => Ret (if positive l0 then Some O else next_positive ls)
  end.

(** [pay = min(extra_left, target_loan["balance"]);
     target_loan["balance"] -= pay] *)
Definition pay_extra (extra_left : Qc) (l : loan) : loan :=
  let pay := Num.py_min extra_left (balance l) in
  set_balance l (balance l - pay).

(** The [if extra_left > 0:] block. *)
Definition apply_extra (ls : list loan) (extra_left : Qc)
  : result (list loan) :=
  if Num.ltb 0 extra_left then
    let* t := target_loan ls in
    match t with
    | Some i => Ret (alter (pay_extra extra_left) i ls)
    | None => Ret ls
    end
  else Ret ls.

(** [any(l["balance"] > 0 for l in loans) and months < 600] *)
Definition guard (s : state) : bool :=
  existsb positive (loans s) && (months s <? cap)%nat.

(** One month: the body of the [while] loop. *)
Definition body (extra : Qc) (s : state) : result state :=
  let extra_left := extra in
  let '(ls, total_interest, extra_left) :=
    for_loans (loans s) (total_interest s) extra_left in
  let extra_left := Num.py_max 0 extra_left in
  let* ls := apply_extra ls extra_left in
  Ret (State ls (S (months s)) total_interest).

Definition init (ls : list loan) : state := State ls 0 0.

Definition loop (fuel : nat) (extra : Qc) (s : state) : result state :=
  while_loop guard (body extra) fuel s.

Definition after (n : nat) (extra : Qc) (s : state) : result state :=
  iterations guard (body extra) n s.

(** The loan that receives the extra payment in the month that starts in
    state [s], if there is one. *)
Definition extra_target (extra : Qc) (s : state) : result (option loan) :=
  let '(ls, _, extra_left) := for_loans (loans s) (total_interest s) extra in
  let extra_left := Num.py_max 0 extra_left in
  if Num.ltb 0 extra_left then
    let* t := target_loan ls in Ret (i ← t; ls !! i)
  else Ret None.

(** The months left before the cap. *)
Definition measure (s : state) : nat := cap - months s.

End Sim.

(** The copies of [[loan.copy() for loan in loans]] are the values of the
    list. *)
Definition simulate (loans : list loan) (extra : Qc) : result (nat * Qc) :=
  let* s := Sim.loop cap extra (Sim.init loans) in
  Ret (Sim.months s, Sim.total_interest s).

Definition snowball (loans : list loan) (extra : Qc) : result (nat * Qc) :=
  let loans := sorted balance false loans in
  simulate loans extra.

Definition avalanche (loans : list loan) (extra : Qc) : result (nat * Qc) :=
  let loans := sorted rate true loans in
  simulate loans extra.

(** ** [simulate], on a store of records

    The loan dictionaries live in a store and a loan list is a list of
    references: two entries of a list, or two lists, may share a
    dictionary, and an update through one reference is seen through all.
    The store only grows ([loan.copy()] allocates); a reference is the
    position of its dictionary. *)

Module Store.

Abbreviation ref := nat.
Abbreviation store := (list loan).

(** Computations on the store that may raise. *)
Definition M (A : Type) : Type := store -> result (A * store).

Definition pure {A} (a : A) : M A := fun h => Ret (a, h).

Definition and_then {A B} (m : M A) (k : A -> M B) : M B :=
  fun h =>
    match m h with
    | Ret (a, h') => k a h'
    | Raise e => Raise e
    | OutOfFuel => OutOfFuel
    end.

Notation "'let!' x ':=' m 'in' k" := (and_then m (fun x => k))
  (at level 10, x name, m at level 100, k at level 200, only parsing).

(** The dictionary behind a reference. *)
Definition read (r : ref) : M loan :=
  fun h =>
    match h !! r with
    | Some l => Ret (l, h)
    | None => Raise DanglingRef
    end.

Definition write (r : ref) (l : loan) : M unit :=
  fun h =>
    if decide (r < length h)%nat then Ret (tt, <[r := l]> h)
    else Raise DanglingRef.

Definition alloc (l : loan) : M ref :=
  fun h => Ret (length h, h ++ [l]).

(** [loan["balance"] = b], in place. *)
Definition store_balance (r : ref) (b : Qc) : M unit :=
  let! l := read r in write r (set_balance l b).

(** [loan.copy()]: a new dictionary with the same entries. *)
Definition copy (r : ref) : M ref :=
  let! l := read r in alloc l.

(** [[loan.copy() for loan in loans]] *)
Fixpoint copy_all (rs : list ref) : M (list ref) :=
  match rs with
  | [] => pure []
  | r :: rest =>
      let! r' := copy r in
      let! rest' := copy_all rest in
      pure (r' :: rest')
  end.

(** The body of [for loan in loans]. *)
Definition visit (r : ref) (total_interest extra_left : Qc)
  : M (Qc * Qc) :=
  let! l := read r in
  if Num.leb (balance l) 0 then pure (total_interest, extra_left)
  else
    let interest := balance l * (rate l / Num.lit 100 / Num.lit 12) in
    let! _ := store_balance r (balance l + interest) in
    let total_interest := total_interest + interest in
    let! l := read r in
    let pay := Num.py_min (min_payment l) (balance l) in
    let! _ := store_balance r (balance l - pay) in
    pure (total_interest, extra_left - pay).

Fixpoint for_loans (rs : list ref) (total_interest extra_left : Qc)
  : M (Qc * Qc) :=
  match rs with
  | [] => pure (total_interest, extra_left)
  | r :: rest =>
      let! acc := visit r total_interest extra_left in
      for_loans rest acc.1 acc.2
  end.

(** [any(l["balance"] > 0 for l in loans)] *)
Fixpoint any_positive (rs : list ref) : M bool :=
  match rs with
  | [] => pure false
  | r :: rest =>
      let! l := read r in
      if positive l then pure true else any_positive rest
  end.

(** [next((l for l in loans if l["balance"] > 0), None)] *)
Fixpoint next_positive (rs : list ref) : M (option ref) :=
  match rs with
  | [] => pure None
  | r :: rest =>
      let! l := read r in
      if positive l then pure (Some r) else next_positive rest
  end.

Definition target_loan (rs : list ref) : M (option ref) :=
  match rs with
  | [] => fun _ => Raise IndexError
  | r0 :: _ =>
      let! l0 := read r0 in
      if positive l0 then pure (Some r0) else next_positive rs
  end.

Definition apply_extra (rs : list ref) (extra_left : Qc) : M unit :=
  if Num.ltb 0 extra_left then
    let! t := target_loan rs in
    match t with
    | Some r =>
        let! l := read r in
        let pay := Num.py_min extra_left (balance l) in
        store_balance r (balance l - pay)
    | None => pure tt
    end
  else pure tt.

(** The [while] loop, on the list [rs] of the copies. *)
Fixpoint loop (fuel : nat) (rs : list ref) (extra : Qc)
    (months : nat) (total_interest : Qc) : M (nat * Qc) :=
  let! open := any_positive rs in
  if open && (months <? cap)%nat then
    match fuel with
    | O => fun _ => OutOfFuel
    | S fuel' =>
        let extra_left := extra in
        let! acc := for_loans rs total_interest extra_left in
        let extra_left := Num.py_max 0 acc.2 in
        let! _ := apply_extra rs extra_left in
        loop fuel' rs extra (S months) acc.1
    end
  else pure (months, total_interest).

Definition simulate (loans : list ref) (extra : Qc) : M (nat * Qc) :=
  let! loans := copy_all loans in
  loop cap loans extra 0 0.

Fixpoint read_all (rs : list ref) : M (list loan) :=
  match rs with
  | [] => pure []
  | r :: rest =>
      let! l := read r in
      let! ls := read_all rest in
      pure (l :: ls)
  end.

(** [sorted(loans, key=..., reverse=...)]: a new list of the same
    references, ordered by the keys their dictionaries hold at the
    call. *)
Definition sorted_refs (key : loan -> Qc) (reverse : bool) (rs : list ref)
  : M (list ref) :=
  let! ls := read_all rs in
  pure (sorted (fun p : loan * ref => key p.1) reverse (zip ls rs)).*2.

Definition snowball (loans : list ref) (extra : Qc) : M (nat * Qc) :=
  let! loans := sorted_refs balance false loans in
  simulate loans extra.

Definition avalanche (loans : list ref) (extra : Qc) : M (nat * Qc) :=
  let! loans := sorted_refs rate true loans in
  simulate loans extra.

(** [rs] refers to the records [ls] of the store [h]. *)
Definition refers (h : store) (rs : list ref) (ls : list loan) : Prop :=
  Forall2 (fun r l => h !! r = Some l) rs ls.

(** The result of a value-level computation, with the store it leaves:
    the records before [pre] and after [post] are not touched. *)
Definition framed {A B} (pre post : store) (f : A -> B * list loan)
    (r : result A) : result (B * store) :=
  match r with
  | Ret a => Ret ((f a).1, pre ++ (f a).2 ++ post)
  | Raise e => Raise e
  | OutOfFuel => OutOfFuel
  end.

End Store.

(** The caller's records after a call: the call returns what the
    value-level function returns on the records the list refers to, and
    every record of the store before the call is in the store after it,
    unchanged. *)
Definition returns_and_keeps (h : list loan) (call : Store.M (nat * Qc))
    (value : result (nat * Qc)) : Prop :=
  exists res h',
    call h = Ret (res, h') /\
    value = Ret res /\
    forall r, (r < length h)%nat -> h' !! r = h !! r.

(** ** Vocabulary of the properties *)

(** Balances that are not negative. *)
Definition nonneg (l : loan) : Prop := 0 <= balance l.

(** The fields of a loan that the simulation only reads. *)
Definition terms (l : loan) : string * Qc * Qc :=
  (name l, rate l, min_payment l).

(** Rates that are not negative. *)
Definition rates_nonneg (ls : list loan) : Prop :=
  Forall (fun l => 0 <= rate l) ls.

(** Loans whose minimum payment is not negative and whose rate is at least
    -1200 percent a year (a month's interest then takes at most the whole
    balance): all loans of the documented domain are such. *)
Definition payable (l : loan) : Prop :=
  0 <= min_payment l /\ - Num.lit 1200 <= rate l.

Module Order.

(** Ascending and descending by key. *)
Definition ascending {A : Type} (key : A -> Qc) : list A -> Prop :=
  StronglySorted (fun x y => key x <= key y).
Definition descending {A : Type} (key : A -> Qc) : list A -> Prop :=
  StronglySorted (fun x y => key y <= key x).

(** The elements of a list whose key is [k], in the order of the
    list. *)
Definition with_key {A : Type} (key : A -> Qc) (k : Qc) (l : list A)
  : list A :=
  filter (fun x => key x = k) l.

End Order.

(** ** The two-loan example *)

Module Example.

(** [{balance: 100, rate: 5, min_payment: 10}] and
    [{balance: 50, rate: 20, min_payment: 10}], with [extra = 20]. *)
Definition low : loan := Loan "low" (Num.lit 100) (Num.lit 5) (Num.lit 10).
Definition high : loan := Loan "high" (Num.lit 50) (Num.lit 20) (Num.lit 10).
Definition loans : list loan := [low; high].
Definition extra : Qc := Num.lit 20.

End Example.

(** The loans that receive the extra payment in the first [n] months of a
    run on [ls] ([None] for a month without one), by their fixed terms. *)
Definition extra_targets (extra : Qc) (ls : list loan) (n : nat)
  : list (option (string * Qc * Qc)) :=
  map (fun k =>
         match Sim.after k extra (Sim.init ls) with
         | Ret s =>
             if Sim.guard s then
               match Sim.extra_target extra s with
               | Ret t => terms <$> t
               | _ => None
               end
             else None
         | _ => None
         end)
      (seq 0 n).

(** ** More vocabulary *)

(** Loans on which nothing is owed. *)
Definition cleared (l : loan) : Prop := balance l <= 0.

(** [n] payments of [p]. *)
Definition payments (n : nat) (p : Qc) : Qc := Num.lit (Z.of_nat n) * p.


(** No two different elements of the list share a key. *)
Definition distinct_keys {A : Type} (key : A -> Qc) (l : list A) : Prop :=
  forall x y, x ∈ l -> y ∈ l -> key x = key y -> x = y.

(** Ascending by key, and equal where the keys are. *)
Definition strictly_by {A : Type} (key : A -> Qc) (x y : A) : Prop :=
  key x <= key y /\ (key y <= key x -> x = y).

(** Minimum payments that are not negative. *)
Definition minimums_nonneg (ls : list loan) : Prop :=
  Forall (fun l => 0 <= min_payment l) ls.

(** A loan the form accepts. *)
Definition acceptable (l : loan) : Prop :=
  name l <> "" /\ 0 <= balance l /\ 0 <= rate l /\ 0 <= min_payment l.

(** A minimum payment as the form gives it, a whole number
    ([st.number_input(.., min_value=0, step=500)]). *)
Definition whole_minimum (l : loan) : Prop :=
  exists z : Z, min_payment l = Num.lit z.

(** ** The budget form

    The part of the Streamlit script that feeds the simulator: the
    collection of the expenses, the validation of the
    loans and the comparison of the two strategies.  Widgets and messages
    are left out; a rejection stands for [st.error(...)] followed by
    [st.stop()]. *)

(** A Python dictionary with string keys: the entries in the order in
    which their keys were first set. *)
Module Dict.

(** [d[k] = v] *)
Fixpoint set {V : Type} (d : list (string * V)) (k : string) (v : V)
  : list (string * V) :=
  match d with
  | [] => [(k, v)]
  | (k', v') :: rest =>
      if bool_decide (k' = k) then (k, v) :: rest
      else (k', v') :: set rest k v
  end.

(** [d.get(k)] *)
Fixpoint get {V : Type} (d : list (string * V)) (k : string) : option V :=
  match d with
  | [] => None
  | (k', v') :: rest => if bool_decide (k' = k) then Some v' else get rest k
  end.

Definition keys {V : Type} (d : list (string * V)) : list string := d.*1.
Definition values {V : Type} (d : list (string * V)) : list V := d.*2.

End Dict.

Module App.

(** [if label: expenses[label] = amount] *)
Definition add_expense (expenses : list (string * Qc)) (entry : string * Qc)
  : list (string * Qc) :=
  if bool_decide (entry.1 = "") then expenses
  else Dict.set expenses entry.1 entry.2.

(** The dictionary [expenses] after the loop over the rows of the form. *)
Definition collect_expenses (entries : list (string * Qc))
  : list (string * Qc) :=
  foldl add_expense [] entries.

(** [sum(expenses.values())] *)
Definition total_expenses (expenses : list (string * Qc)) : Qc :=
  foldl Qcplus 0 (Dict.values expenses).

(** The reasons for which the script stops before the calculations; the
    loans are counted from 0 here, the messages show [i + 1]. *)
Inductive rejection :=
| SalaryNotPositive
| EmptyName (i : nat)
| NegativeValue (i : nat)
| MinimumsExceedBudget (total_min_payments debt_budget : Qc).

(** [for i, loan in enumerate(loans)]: the two checks on each loan. *)
Fixpoint check_loans (i : nat) (loans : list loan) : option rejection :=
  match loans with
  | [] => None
  | loan :: rest =>
      if bool_decide (name loan = "") then Some (EmptyName i)
      else if Num.ltb (balance loan) 0 || Num.ltb (rate loan) 0
              || Num.ltb (min_payment loan) 0
      then Some (NegativeValue i)
      else check_loans (S i) rest
  end.

(** [sum(loan["min_payment"] for loan in loans)] *)
Definition total_min_payments (loans : list loan) : Qc :=
  foldl (fun acc loan => acc + min_payment loan) 0 loans.

Definition validate (salary debt_budget : Qc) (loans : list loan)
  : option rejection :=
  if Num.leb salary 0 then Some SalaryNotPositive
  else
    match check_loans 0 loans with
    | Some r => Some r
    | None =>
        if Num.ltb debt_budget (total_min_payments loans)
        then Some (MinimumsExceedBudget (total_min_payments loans) debt_budget)
        else None
    end.

Definition avalanche_advice : string :=
  "Avalanche saves more money in interest.
Stick to avalanche if discipline is high.".

Definition snowball_advice : string :=
  "Snowball gives faster wins.
Use snowball for motivation.".

(** [advice = ... if ava_interest < snow_interest else ...] *)
Definition advice (ava_interest snow_interest : Qc) : string :=
  if Num.ltb ava_interest snow_interest then avalanche_advice
  else snowball_advice.

(** What the script shows after the calculations. *)
Record plan := Plan {
  snowball_plan : nat * Qc;
  avalanche_plan : nat * Qc;
  plan_advice : string
}.

(** The handler of the button, up to the advice. *)
Definition calculate (salary debt_budget : Qc) (loans : list loan)
  : result (rejection + plan) :=
  match validate salary debt_budget loans with
  | Some r => Ret (inl r)
  | None =>
      let* snow := snowball loans debt_budget in
      let* ava := avalanche loans debt_budget in
      Ret (inr (Plan snow ava (advice ava.2 snow.2)))
  end.

End App.

(** ** The report

    [generate_pdf] draws the report with reportlab; here the drawing is
    the list of the calls on the canvas, in order.  The number formats
    of the f-strings ([:,.0f], [:.1f] and the plain format of a month
    count) are parameters. *)

Module Pdf.

Inductive command :=
| DrawString (x y : Z) (text : string)      (* [c.drawString(x, y, text)] *)
| DrawText (x y : Z) (lines : list string). (* [c.beginText(x, y)], a
                                               [textLine] for each line,
                                               [c.drawText] *)

(** The height at which a call draws. *)
Definition height (c : command) : Z :=
  match c with
  | DrawString _ y _ => y
  | DrawText _ y _ => y
  end.

(** [s.split("\n")] *)
Fixpoint split_lines (s : string) : list string :=
  match s with
  | EmptyString => [EmptyString]
  | String c rest =>
      if Ascii.eqb c "010"%char then EmptyString :: split_lines rest
      else
        match split_lines rest with
        | [] => [String c EmptyString]
        | line :: lines => String c line :: lines
        end
  end.

(** [for x in xs: c.drawString(60, y, line(x)); y -= 20], with the [y]
    it leaves. *)
Fixpoint draw_lines {A : Type} (line : A -> string) (xs : list A) (y : Z)
  : list command * Z :=
  match xs with
  | [] => ([], y)
  | x :: rest =>
      let '(cs, y') := draw_lines line rest (y - 20) in
      (DrawString 60 y (line x) :: cs, y')
  end.

Section Report.

Variable money : Qc -> string.
Variable percent : Qc -> string.
Variable count : nat -> string.

Definition loan_line (l : loan) : string :=
  name l +:+ ": Balance " +:+ money (balance l) +:+ " KES, Rate "
  +:+ percent (rate l) +:+ "%, Min " +:+ money (min_payment l) +:+ " KES".

Definition plan_line (entry : string * (nat * Qc)) : string :=
  entry.1 +:+ ": " +:+ count entry.2.1 +:+ " months, Interest = "
  +:+ money entry.2.2 +:+ " KES".

Definition expense_line (entry : string * Qc) : string :=
  entry.1 +:+ ": " +:+ money entry.2 +:+ " KES".

Definition generate_pdf (salary savings : Qc)
    (debt_plan : list (string * (nat * Qc))) (advice : string)
    (loans : list loan) (expenses : list (string * Qc)) : list command :=
  let head :=
    [DrawString 50 750 ("Budget Report - Salary " +:+ money salary +:+ " KES");
     DrawString 50 730 ("Savings this month: " +:+ money savings +:+ " KES");
     DrawString 50 710
       ("Expenses: " +:+ money (App.total_expenses expenses) +:+ " KES")] in
  let y := 690%Z in
  let loans_title := [DrawString 50 y "Loans:"] in
  let y := (y - 20)%Z in
  let '(loan_lines, y) := draw_lines loan_line loans y in
  let plan_title := [DrawString 50 (y - 20) "Debt payoff simulation:"] in
  let y := (y - 40)%Z in
  let '(plan_lines, y) := draw_lines plan_line debt_plan y in
  let expenses_title := [DrawString 50 (y - 20) "Expenses:"] in
  let y := (y - 40)%Z in
  let '(expense_lines, y) := draw_lines expense_line expenses y in
  let advice_title := [DrawString 50 (y - 20) "Advice:"] in
  let text := [DrawText 60 (y - 40) (split_lines advice)] in
  head ++ loans_title ++ loan_lines ++ plan_title ++ plan_lines
  ++ expenses_title ++ expense_lines ++ advice_title ++ text.

End Report.

(** [n] heights from [y] down, 20 apart. *)
Definition ladder (y : Z) (n : nat) : list Z :=
  (fun k => (y - 20 * Z.of_nat k)%Z) <$> seq 0 n.

End Pdf.

(** * Properties *)

(** ** Rationals *)

Module NumFacts.
Import Num.

Lemma ltb_lt x y : ltb x y = true <-> x < y.
Proof.
  unfold ltb. rewrite Qclt_alt. destruct (x ?= y); split; congruence.
Qed.

Lemma ltb_ge x y : ltb x y = false <-> y <= x.
Proof.
  rewrite Qcle_ngt, <- ltb_lt. destruct (ltb x y); split; congruence.
Qed.

Lemma leb_le x y : leb x y = true <-> x <= y.
Proof.
  unfold leb. rewrite Qcle_alt. destruct (x ?= y); split; congruence.
Qed.

Lemma leb_gt x y : leb x y = false <-> y < x.
Proof.
  rewrite Qclt_nge, <- leb_le. destruct (leb x y); split; congruence.
Qed.

Lemma leb_ltb x y : leb x y = negb (ltb y x).
Proof.
  destruct (leb x y) eqn:E.
  - apply leb_le in E. symmetry. apply negb_true_iff, ltb_ge, E.
  - apply leb_gt in E. symmetry. apply negb_false_iff, ltb_lt, E.
Qed.

(** Transport of statements on [Qc] to statements on [Q], where [lra]
    decides them. *)
Lemma this_plus x y : (this (x + y) == this x + this y)%Q.
Proof. unfold Qcplus. simpl. apply Qred_correct. Qed.

Lemma this_minus x y : (this (x - y) == this x - this y)%Q.
Proof.
  unfold Qcminus, Qcplus, Qcopp. simpl. rewrite !Qred_correct. reflexivity.
Qed.

Lemma this_mult x y : (this (x * y) == this x * this y)%Q.
Proof. unfold Qcmult. simpl. apply Qred_correct. Qed.

Lemma this_opp x : (this (- x) == - this x)%Q.
Proof. unfold Qcopp. simpl. apply Qred_correct. Qed.

Lemma this_Q2Qc q : (this (Q2Qc q) == q)%Q.
Proof. simpl. apply Qred_correct. Qed.

Lemma this_monthly r :
  (this (r / lit 100 / lit 12) == this r * (1 # 1200))%Q.
Proof.
  unfold Qcdiv, Qcinv, lit. rewrite !this_mult, !this_Q2Qc. simpl.
  field.
Qed.

Lemma Qcle_this x y : x <= y <-> (this x <= this y)%Q.
Proof. reflexivity. Qed.

Lemma Qclt_this x y : x < y <-> (this x < this y)%Q.
Proof. reflexivity. Qed.

Lemma Qceq_this x y : x = y <-> (this x == this y)%Q.
Proof. split; [intros ->; reflexivity | apply Qc_is_canon]. Qed.

End NumFacts.

Ltac qc2q :=
  repeat match goal with
  | H : context [Qcle _ _] |- _ => rewrite NumFacts.Qcle_this in H
  | H : context [Qclt _ _] |- _ => rewrite NumFacts.Qclt_this in H
  | H : @eq Qc _ _ |- _ => rewrite NumFacts.Qceq_this in H
  | |- context [Qcle _ _] => rewrite NumFacts.Qcle_this
  | |- context [Qclt _ _] => rewrite NumFacts.Qclt_this
  | |- @eq Qc _ _ => rewrite NumFacts.Qceq_this
  end;
  repeat (rewrite ?NumFacts.this_monthly, ?NumFacts.this_plus,
            ?NumFacts.this_minus, ?NumFacts.this_mult, ?NumFacts.this_opp,
            ?NumFacts.this_Q2Qc in * ).

(** Equations between closed terms, by evaluation; canonical rationals
    are compared by their fractions. *)
Ltac by_evaluation :=
  vm_compute;
  repeat lazymatch goal with
         | |- @eq Qc _ _ => apply Qc_is_canon; reflexivity
         | |- _ => first [reflexivity | f_equal]
         end.

(** Case analysis on the boolean comparisons of a goal. *)
Ltac case_cmp :=
  match goal with
  | |- context [Num.ltb ?x ?y] =>
      let E := fresh "E" in
      destruct (Num.ltb x y) eqn:E;
      [apply NumFacts.ltb_lt in E | apply NumFacts.ltb_ge in E]
  | |- context [Num.leb ?x ?y] =>
      let E := fresh "E" in
      destruct (Num.leb x y) eqn:E;
      [apply NumFacts.leb_le in E | apply NumFacts.leb_gt in E]
  end.

(** ** Loops *)

Section Loops.

Context {S : Type} (guard : S -> bool) (body : S -> result S).

(** A loop that ends has run some iterations and ends where its guard
    fails. *)
Lemma while_loop_iterations fuel s s' :
  while_loop guard body fuel s = Ret s' ->
  iterations guard body fuel s = Ret s' /\ guard s' = false.
Proof.
  revert s. induction fuel as [|fuel IH]; intros s; simpl.
  - destruct (guard s) eqn:G; [discriminate|].
    intros [= <-]. auto.
  - destruct (guard s) eqn:G.
    + destruct (body s) as [s1| |]; simpl; try discriminate. apply IH.
    + intros [= <-]. auto.
Qed.

(** What holds initially and is kept by the body holds after any number
    of iterations. *)
Lemma iterations_invariant (I : S -> Prop) n s s' :
  (forall s s', I s -> guard s = true -> body s = Ret s' -> I s') ->
  I s -> iterations guard body n s = Ret s' -> I s'.
Proof.
  intros Hstep. revert s. induction n as [|n IH]; intros s Hs; simpl.
  - intros [= <-]. exact Hs.
  - destruct (guard s) eqn:G.
    + destruct (body s) as [s1| |] eqn:B; simpl; try discriminate.
      apply IH. eapply Hstep; eauto.
    + intros [= <-]. exact Hs.
Qed.

Lemma while_loop_invariant (I : S -> Prop) fuel s s' :
  (forall s s', I s -> guard s = true -> body s = Ret s' -> I s') ->
  I s -> while_loop guard body fuel s = Ret s' -> I s'.
Proof.
  intros Hstep Hs Hrun. apply while_loop_iterations in Hrun as [Hrun _].
  eapply iterations_invariant; eauto.
Qed.

(** A loop whose body never raises and decreases a measure ends, and
    more fuel than the measure changes nothing. *)
Lemma while_loop_terminates (measure : S -> nat) :
  (forall s, guard s = true ->
             exists s', body s = Ret s' /\ (measure s' < measure s)%nat) ->
  forall fuel s, (measure s <= fuel)%nat ->
    (exists s', while_loop guard body fuel s = Ret s') /\
    while_loop guard body fuel s = while_loop guard body (measure s) s.
Proof.
  intros Hstep fuel. induction fuel as [fuel IH] using lt_wf_ind.
  intros s Hfuel.
  destruct (guard s) eqn:G.
  - destruct (Hstep s G) as (s1 & B & Hlt).
    destruct fuel as [|fuel]; [lia|].
    destruct (measure s) as [|m] eqn:M; [lia|].
    simpl. rewrite G, B. simpl.
    destruct (IH fuel ltac:(lia) s1 ltac:(lia)) as [Hex Heq].
    split; [exact Hex|].
    rewrite Heq.
    destruct (IH m ltac:(lia) s1 ltac:(lia)) as [_ Heq'].
    now rewrite Heq'.
  - split.
    + exists s. destruct fuel; simpl; now rewrite G.
    + destruct fuel, (measure s); simpl; now rewrite G.
Qed.

End Loops.

(** ** Termination within the cap *)

Module PayoffFacts.
Import Payoff.

Lemma payoff_guard_months s : guard s = true -> (months s < cap)%nat.
Proof.
  unfold guard. intros [_ H]%andb_true_iff. now apply Nat.ltb_lt in H.
Qed.

Lemma payoff_body_decreases rate pay s :
  guard s = true ->
  exists s', Ret (body rate pay s) = Ret s' /\ (measure s' < measure s)%nat.
Proof.
  intros G%payoff_guard_months. eexists. split; [reflexivity|].
  unfold measure, body. cbn [months]. lia.
Qed.

Lemma payoff_loop_terminates rate pay balance k :
  (exists s, loop cap rate pay (init balance) = Ret s /\
             (months s <= cap)%nat) /\
  loop (cap + k) rate pay (init balance) = loop cap rate pay (init balance).
Proof.
  unfold loop.
  destruct (while_loop_terminates guard _ measure
              (payoff_body_decreases rate pay)
              (cap + k) (init balance)) as [_ Hk]; [unfold measure; lia|].
  destruct (while_loop_terminates guard _ measure
              (payoff_body_decreases rate pay)
              cap (init balance)) as [[s Hs] H0]; [unfold measure; lia|].
  split; [|now rewrite Hk, H0].
  exists s. split; [exact Hs|].
  eapply (while_loop_invariant _ _ (fun s => (months s <= cap)%nat));
    [ | | exact Hs].
  - intros s1 s2 _ G%payoff_guard_months [= <-]. cbn [months body]. lia.
  - cbn [months init]. lia.
Qed.

End PayoffFacts.

Module SimFacts.
Import Sim.

Lemma guard_months s : guard s = true -> (months s < cap)%nat.
Proof.
  unfold guard. intros [_ H]%andb_true_iff. now apply Nat.ltb_lt in H.
Qed.

Lemma guard_nonempty s : guard s = true -> loans s <> [].
Proof.
  unfold guard. intros [H _]%andb_true_iff E. rewrite E in H. discriminate.
Qed.

Lemma for_loans_length ls ti el :
  length (for_loans ls ti el).1.1 = length ls.
Proof.
  revert ti el. induction ls as [|l rest IH]; intros ti el; simpl; [done|].
  destruct (visit l ti el) as [[l' ti1] el1].
  specialize (IH ti1 el1).
  destruct (for_loans rest ti1 el1) as [[rest' ti2] el2]. simpl in *.
  now rewrite IH.
Qed.

(** On a list that is not empty the extra-payment block raises
    nothing. *)
Lemma apply_extra_ok ls el :
  ls <> [] -> exists ls', apply_extra ls el = Ret ls'.
Proof.
  intros Hne. unfold apply_extra.
  destruct (Num.ltb 0 el); [|eauto].
  destruct ls as [|l0 rest]; [done|]. simpl.
  destruct (positive l0); [eauto|].
  destruct (S <$> next_positive rest); eauto.
Qed.

Lemma body_ok extra s :
  guard s = true ->
  exists ls ti, body extra s = Ret (State ls (S (months s)) ti).
Proof.
  intros G%guard_nonempty. unfold body.
  pose proof (for_loans_length (loans s) (total_interest s) extra) as Hlen.
  destruct (for_loans (loans s) (total_interest s) extra)
    as [[ls ti] el]. simpl in Hlen.
  destruct (apply_extra_ok ls (Num.py_max 0 el)) as [ls' E].
  - intros ->. destruct (loans s); [done | discriminate].
  - rewrite E. simpl. eauto.
Qed.

Lemma body_decreases extra s :
  guard s = true ->
  exists s', body extra s = Ret s' /\ (measure s' < measure s)%nat.
Proof.
  intros G. destruct (body_ok extra s G) as (ls & ti & E).
  apply guard_months in G.
  eexists. split; [exact E|]. unfold measure. cbn [months]. lia.
Qed.

Lemma loop_terminates extra ls k :
  (exists s, loop cap extra (init ls) = Ret s /\ (months s <= cap)%nat) /\
  loop (cap + k) extra (init ls) = loop cap extra (init ls).
Proof.
  unfold loop.
  destruct (while_loop_terminates guard _ measure (body_decreases extra)
              (cap + k) (init ls)) as [_ Hk]; [unfold measure; lia|].
  destruct (while_loop_terminates guard _ measure (body_decreases extra)
              cap (init ls)) as [[s Hs] H0]; [unfold measure; lia|].
  split; [|now rewrite Hk, H0].
  exists s. split; [exact Hs|].
  eapply (while_loop_invariant _ _ (fun s => (months s <= cap)%nat));
    [ | | exact Hs].
  - intros s1 s2 _ G B.
    destruct (body_ok extra s1 G) as (ls' & ti & E).
    rewrite E in B. injection B as <-. apply guard_months in G.
    cbn [months]. lia.
  - cbn [months init]. lia.
Qed.

End SimFacts.

(** C1.  [calculate_payoff], for any balance, rate and monthly payment,
    and [simulate], for any loan list and extra, return a result (no
    exception, and the 600 iterations the cap allows are enough fuel:
    more fuel changes nothing), and the months they return are at most
    600. *)
Theorem C1_terminates_within_cap :
  (forall balance rate monthly_payment : Qc,
      (exists months total_interest,
          calculate_payoff balance rate monthly_payment
          = Ret (months, total_interest) /\ (months <= 600)%nat) /\
      (forall k, Payoff.loop (cap + k) rate monthly_payment
                   (Payoff.init balance)
                 = Payoff.loop cap rate monthly_payment
                     (Payoff.init balance))) /\
  (forall (loans : list loan) (extra : Qc),
      (exists months total_interest,
          simulate loans extra = Ret (months, total_interest) /\
          (months <= 600)%nat) /\
      (forall k, Sim.loop (cap + k) extra (Sim.init loans)
                 = Sim.loop cap extra (Sim.init loans))).
Proof.
  split.
  - intros b r p. split.
    + destruct (PayoffFacts.payoff_loop_terminates r p b 0)
        as [(s & Hs & Hm) _].
      exists (Payoff.months s), (Payoff.total_interest s).
      unfold calculate_payoff. rewrite Hs. simpl. split; [done|exact Hm].
    + intros k. apply PayoffFacts.payoff_loop_terminates.
  - intros ls extra. split.
    + destruct (SimFacts.loop_terminates extra ls 0) as [(s & Hs & Hm) _].
      exists (Sim.months s), (Sim.total_interest s).
      unfold simulate. rewrite Hs. simpl. split; [done|exact Hm].
    + intros k. apply SimFacts.loop_terminates.
Qed.

(** C4.  On the empty loan list [simulate] returns (0, 0) for every
    extra, without entering the loop (no fuel is needed), and so do
    [snowball] and [avalanche]. *)
Theorem C4_empty_loan_list :
  forall extra : Qc,
    simulate [] extra = Ret (0%nat, 0) /\
    snowball [] extra = Ret (0%nat, 0) /\
    avalanche [] extra = Ret (0%nat, 0) /\
    (forall fuel, Sim.loop fuel extra (Sim.init []) = Ret (Sim.init [])).
Proof.
  intros extra.
  assert (forall fuel, Sim.loop fuel extra (Sim.init []) = Ret (Sim.init []))
    as H by (intros [|fuel]; reflexivity).
  unfold snowball, avalanche, sorted, simulate. simpl rev. simpl stable_sort.
  rewrite (H cap). simpl. auto.
Qed.

(** ** Invariants of the two loops *)

Section Iterations.

Context {S : Type} (guard : S -> bool) (body : S -> result S).

(** An invariant kept by a body that does not raise under it: every
    number of iterations leads to a state, which satisfies it. *)
Lemma iterations_total (I : S -> Prop) :
  (forall s, I s -> guard s = true -> exists s', body s = Ret s' /\ I s') ->
  forall n s, I s -> exists s', iterations guard body n s = Ret s' /\ I s'.
Proof.
  intros Hstep n. induction n as [|n IH]; intros s Hs; simpl.
  - eauto.
  - destruct (guard s) eqn:G; [|eauto].
    destruct (Hstep s Hs G) as (s1 & B & Hs1). rewrite B. simpl.
    now apply IH.
Qed.

(** One more iteration is one more guarded step at the end. *)
Lemma iterations_succ n s :
  iterations guard body (Datatypes.S n) s
  = let* s' := iterations guard body n s in
    if guard s' then body s' else Ret s'.
Proof.
  revert s. induction n as [|n IH]; intros s.
  - simpl. destruct (guard s); [|reflexivity].
    destruct (body s); reflexivity.
  - change (iterations guard body (Datatypes.S (Datatypes.S n)) s)
      with (if guard s
            then let* s' := body s in
                 iterations guard body (Datatypes.S n) s'
            else Ret s).
    cbn [iterations]. destruct (guard s) eqn:G.
    + destruct (body s) as [s1| |]; simpl; [|reflexivity..].
      rewrite <- IH. reflexivity.
    + simpl. now rewrite G.
Qed.

End Iterations.

Module Invariants.

(** *** [calculate_payoff] *)

(** The clamp: whatever the state, the balance after the body is not
    negative. *)
Lemma payoff_body_nonneg rate pay s :
  0 <= Payoff.balance (Payoff.body rate pay s).
Proof.
  unfold Payoff.body. cbn [Payoff.balance].
  case_cmp; qc2q; lra.
Qed.

(** With a rate that is not negative the interest of a month that is
    run is not negative. *)
Lemma payoff_body_total rate pay s :
  0 <= rate -> Payoff.guard s = true ->
  Payoff.total_interest s
  <= Payoff.total_interest (Payoff.body rate pay s).
Proof.
  intros Hr [Hb%NumFacts.ltb_lt _]%andb_true_iff.
  unfold Payoff.body. cbn [Payoff.total_interest].
  qc2q. nra.
Qed.

(** *** [simulate]: one loan of the [for] loop *)

Lemma visit_skip l ti el :
  balance l <= 0 -> Sim.visit l ti el = (l, ti, el).
Proof.
  intros H%NumFacts.leb_le. unfold Sim.visit. now rewrite H.
Qed.

(** After the minimum payment the balance is zero or more, whatever the
    loan. *)
Lemma visit_paid_nonneg l ti el :
  0 < balance l -> 0 <= balance (Sim.visit l ti el).1.1.
Proof.
  intros H%NumFacts.leb_gt. unfold Sim.visit. rewrite H.
  cbn [fst balance set_balance rate min_payment].
  unfold Num.py_min. case_cmp; qc2q; lra.
Qed.

Lemma visit_nonneg l ti el : nonneg l -> nonneg (Sim.visit l ti el).1.1.
Proof.
  unfold nonneg. intros H.
  destruct (Num.leb (balance l) 0) eqn:E.
  - apply NumFacts.leb_le in E. now rewrite visit_skip.
  - apply NumFacts.leb_gt in E. now apply visit_paid_nonneg.
Qed.

Lemma visit_terms l ti el : terms (Sim.visit l ti el).1.1 = terms l.
Proof. unfold Sim.visit. destruct (Num.leb (balance l) 0); reflexivity. Qed.

Lemma visit_total l ti el :
  0 <= rate l -> ti <= (Sim.visit l ti el).1.2.
Proof.
  intros Hr. unfold Sim.visit.
  case_cmp; cbn [fst snd]; [apply Qcle_refl|].
  qc2q. nra.
Qed.

(** *** The [for] loop *)

Lemma for_loans_nonneg ls ti el :
  Forall nonneg ls -> Forall nonneg (Sim.for_loans ls ti el).1.1.
Proof.
  intros H. revert ti el. induction H as [|l rest Hl _ IH]; intros ti el.
  - constructor.
  - simpl. pose proof (visit_nonneg l ti el Hl) as Hv.
    destruct (Sim.visit l ti el) as [[l' ti1] el1].
    specialize (IH ti1 el1).
    destruct (Sim.for_loans rest ti1 el1) as [[rest' ti2] el2].
    now constructor.
Qed.

Lemma for_loans_terms ls ti el :
  terms <$> (Sim.for_loans ls ti el).1.1 = terms <$> ls.
Proof.
  revert ti el. induction ls as [|l rest IH]; intros ti el; [done|].
  cbn [Sim.for_loans]. pose proof (visit_terms l ti el) as Hv.
  destruct (Sim.visit l ti el) as [[l' ti1] el1].
  specialize (IH ti1 el1).
  destruct (Sim.for_loans rest ti1 el1) as [[rest' ti2] el2].
  cbn [fst] in *. rewrite !fmap_cons. congruence.
Qed.

Lemma for_loans_total ls ti el :
  Forall (fun l => 0 <= rate l) ls -> ti <= (Sim.for_loans ls ti el).1.2.
Proof.
  intros H. revert ti el. induction H as [|l rest Hl _ IH]; intros ti el.
  - apply Qcle_refl.
  - simpl. pose proof (visit_total l ti el Hl) as Hv.
    destruct (Sim.visit l ti el) as [[l' ti1] el1].
    specialize (IH ti1 el1).
    destruct (Sim.for_loans rest ti1 el1) as [[rest' ti2] el2].
    simpl in *. eapply Qcle_trans; eauto.
Qed.

(** *** The extra payment *)

(** [min(extra_left, balance)] never exceeds the balance. *)
Lemma pay_extra_nonneg el l : nonneg (Sim.pay_extra el l).
Proof.
  unfold nonneg, Sim.pay_extra, Num.py_min. cbn [balance set_balance].
  case_cmp; qc2q; lra.
Qed.

Lemma pay_extra_terms el l : terms (Sim.pay_extra el l) = terms l.
Proof. reflexivity. Qed.

Lemma apply_extra_cases ls el ls' :
  Sim.apply_extra ls el = Ret ls' ->
  ls' = ls \/ exists i, ls' = alter (Sim.pay_extra el) i ls.
Proof.
  unfold Sim.apply_extra. destruct (Num.ltb 0 el); [|intros [= <-]; auto].
  destruct (Sim.target_loan ls) as [[i|]| |]; simpl;
    intros [= <-]; eauto.
Qed.

Lemma apply_extra_nonneg ls el ls' :
  Sim.apply_extra ls el = Ret ls' -> Forall nonneg ls -> Forall nonneg ls'.
Proof.
  intros [->|[i ->]]%apply_extra_cases H; [done|].
  apply Forall_alter; [done|]. intros l _ _. apply pay_extra_nonneg.
Qed.

Lemma apply_extra_terms ls el ls' :
  Sim.apply_extra ls el = Ret ls' -> terms <$> ls' = terms <$> ls.
Proof.
  intros [->|[i ->]]%apply_extra_cases; [done|].
  rewrite (list_fmap_alter terms _ id) by (apply Forall_forall; done).
  apply list_alter_id. done.
Qed.

(** *** One month *)

Lemma body_inv extra s s' :
  Sim.body extra s = Ret s' ->
  Sim.months s' = S (Sim.months s) /\
  terms <$> Sim.loans s' = terms <$> Sim.loans s /\
  (Forall nonneg (Sim.loans s) -> Forall nonneg (Sim.loans s')) /\
  Sim.total_interest s'
  = (Sim.for_loans (Sim.loans s) (Sim.total_interest s) extra).1.2.
Proof.
  unfold Sim.body.
  pose proof (for_loans_terms (Sim.loans s) (Sim.total_interest s) extra)
    as Ht.
  pose proof (for_loans_nonneg (Sim.loans s) (Sim.total_interest s) extra)
    as Hn.
  destruct (Sim.for_loans (Sim.loans s) (Sim.total_interest s) extra)
    as [[ls ti] el]. simpl in Ht, Hn.
  destruct (Sim.apply_extra ls (Num.py_max 0 el)) as [ls'| |] eqn:E;
    simpl; try discriminate.
  intros [= <-]. cbn [Sim.months Sim.loans Sim.total_interest].
  split; [done|]. split.
  - erewrite apply_extra_terms; eauto.
  - split; [|done]. intros H. eapply apply_extra_nonneg; eauto.
Qed.

Lemma rates_nonneg_terms ls ls' :
  terms <$> ls' = terms <$> ls -> rates_nonneg ls -> rates_nonneg ls'.
Proof.
  unfold rates_nonneg. intros E H.
  apply (Forall_fmap terms (fun t : string * Qc * Qc => 0 <= t.1.2)).
  rewrite E. now apply Forall_fmap.
Qed.

Lemma body_total extra s s' :
  rates_nonneg (Sim.loans s) -> Sim.body extra s = Ret s' ->
  rates_nonneg (Sim.loans s') /\
  Sim.total_interest s <= Sim.total_interest s'.
Proof.
  intros Hr (_ & Ht & _ & Hti)%body_inv. split.
  - eapply rates_nonneg_terms; eauto.
  - rewrite Hti. now apply for_loans_total.
Qed.

(** A month that is run gives a state. *)
Lemma body_step (I : Sim.state -> Prop) extra :
  (forall s s', I s -> Sim.body extra s = Ret s' -> I s') ->
  forall s, I s -> Sim.guard s = true ->
            exists s', Sim.body extra s = Ret s' /\ I s'.
Proof.
  intros HI s Hs G. destruct (SimFacts.body_ok extra s G) as (ls & ti & B).
  eexists. split; [exact B|]. eapply HI; eauto.
Qed.

End Invariants.

(** C6.  A payment never leaves a negative balance: the clamp in the body
    of [calculate_payoff], the minimum payment of a loan that [simulate]
    visits and the extra payment all give a balance that is zero or more.
    Hence, from balances that are not negative, after every number [n] of
    iterations the balance of [calculate_payoff] is not negative, and in
    [simulate] no balance is negative at the start of a month, nor after
    the minimum payments of the month that follows. *)
Theorem C6_balance_never_negative :
  forall (b r p : Qc) (ls : list loan) (extra : Qc) (n : nat),
    0 <= b -> Forall nonneg ls ->
    (forall s, 0 <= Payoff.balance (Payoff.body r p s)) /\
    (forall l ti el, 0 < balance l -> 0 <= balance (Sim.visit l ti el).1.1) /\
    (forall l el, 0 <= balance (Sim.pay_extra el l)) /\
    (exists s, Payoff.after n r p (Payoff.init b) = Ret s /\
               0 <= Payoff.balance s) /\
    (exists s, Sim.after n extra (Sim.init ls) = Ret s /\
               Forall nonneg (Sim.loans s) /\
               Forall nonneg
                 (Sim.for_loans (Sim.loans s) (Sim.total_interest s)
                    extra).1.1).
Proof.
  intros b r p ls extra n Hb Hls.
  split; [intros s; apply Invariants.payoff_body_nonneg|].
  split; [intros l ti el; apply Invariants.visit_paid_nonneg|].
  split; [intros l el; apply Invariants.pay_extra_nonneg|].
  split.
  - apply (iterations_total Payoff.guard _
             (fun s => 0 <= Payoff.balance s)); [|exact Hb].
    intros s _ _. eexists. split; [reflexivity|].
    apply Invariants.payoff_body_nonneg.
  - destruct (iterations_total Sim.guard (Sim.body extra)
                (fun s => Forall nonneg (Sim.loans s))
                (Invariants.body_step _ extra
                   (fun s s' H B => proj1 (proj2 (proj2
                      (Invariants.body_inv extra s s' B))) H))
                n (Sim.init ls) Hls) as (s & Hs & Hn).
    exists s. split; [exact Hs|]. split; [exact Hn|].
    now apply Invariants.for_loans_nonneg.
Qed.

Lemma C6_balance_never_negative_witness :
  exists s, Sim.after 3 (Num.lit 20)
              (Sim.init [Loan "car" (Num.lit 100) (Num.lit 5) (Num.lit 10);
                         Loan "card" 0 (Num.lit 20) (Num.lit 10)]) = Ret s /\
            Forall nonneg (Sim.loans s).
Proof.
  destruct (C6_balance_never_negative (Num.lit 50) (Num.lit 5) (Num.lit 10)
              [Loan "car" (Num.lit 100) (Num.lit 5) (Num.lit 10);
               Loan "card" 0 (Num.lit 20) (Num.lit 10)]
              (Num.lit 20) 3) as (_ & _ & _ & _ & s & Hs & Hn & _).
  - discriminate.
  - repeat constructor; discriminate.
  - exists s. split; assumption.
Defined.

(** C7.  With rates that are not negative the running total of interest
    never decreases from one iteration to the next, in [calculate_payoff]
    and in [simulate], and the total that is returned is not negative.
    (The balances need no assumption: interest is only charged on a
    balance that is greater than zero.) *)
Theorem C7_total_interest_monotone :
  forall (b r p : Qc) (ls : list loan) (extra : Qc) (n : nat),
    0 <= r -> Forall (fun l => 0 <= rate l) ls ->
    (exists s s', Payoff.after n r p (Payoff.init b) = Ret s /\
                  Payoff.after (S n) r p (Payoff.init b) = Ret s' /\
                  Payoff.total_interest s <= Payoff.total_interest s') /\
    (exists s s', Sim.after n extra (Sim.init ls) = Ret s /\
                  Sim.after (S n) extra (Sim.init ls) = Ret s' /\
                  Sim.total_interest s <= Sim.total_interest s') /\
    (exists months total_interest,
        calculate_payoff b r p = Ret (months, total_interest) /\
        0 <= total_interest) /\
    (exists months total_interest,
        simulate ls extra = Ret (months, total_interest) /\
        0 <= total_interest).
Proof.
  intros b r p ls extra n Hr Hls.
  assert (forall s s',
             rates_nonneg (Sim.loans s) /\ 0 <= Sim.total_interest s ->
             Sim.body extra s = Ret s' ->
             rates_nonneg (Sim.loans s') /\
             0 <= Sim.total_interest s') as Hstep.
  { intros s s' [H1 H2] B.
    destruct (Invariants.body_total extra s s' H1 B) as [H3 H4].
    split; [exact H3|]. eapply Qcle_trans; eauto. }
  repeat split.
  - destruct (iterations_total Payoff.guard
                (fun s => Ret (Payoff.body r p s)) (fun _ => True)
                ltac:(eauto) n (Payoff.init b) I) as (s & Hs & _).
    unfold Payoff.after. rewrite iterations_succ, Hs. cbn [bind].
    destruct (Payoff.guard s) eqn:G.
    + eexists _, _. repeat split.
      now apply Invariants.payoff_body_total.
    + eexists _, _. repeat split. apply Qcle_refl.
  - destruct (iterations_total Sim.guard (Sim.body extra) _
                (Invariants.body_step _ extra Hstep) n (Sim.init ls))
      as (s & Hs & Hrates & _); [split; [exact Hls|apply Qcle_refl]|].
    unfold Sim.after. rewrite iterations_succ, Hs. cbn [bind].
    destruct (Sim.guard s) eqn:G.
    + destruct (SimFacts.body_ok extra s G) as (ls' & ti & B).
      eexists _, _. repeat split; [exact B|].
      eapply Invariants.body_total; eauto.
    + eexists _, _. repeat split. apply Qcle_refl.
  - destruct (PayoffFacts.payoff_loop_terminates r p b 0) as [(s & Hs & _) _].
    exists (Payoff.months s), (Payoff.total_interest s).
    unfold calculate_payoff. rewrite Hs. split; [reflexivity|].
    eapply (while_loop_invariant _ _
              (fun s => 0 <= Payoff.total_interest s)); [| |exact Hs].
    + intros s1 s2 H G [= <-]. eapply Qcle_trans; [exact H|].
      now apply Invariants.payoff_body_total.
    + apply Qcle_refl.
  - destruct (SimFacts.loop_terminates extra ls 0) as [(s & Hs & _) _].
    exists (Sim.months s), (Sim.total_interest s).
    unfold simulate. rewrite Hs. split; [reflexivity|].
    eapply (while_loop_invariant _ _ _ _ _ _
              (fun s s' H _ B => Hstep s s' H B)); [|exact Hs].
    split; [exact Hls|apply Qcle_refl].
Qed.

Lemma C7_total_interest_monotone_witness :
  exists months total_interest,
    simulate [Loan "car" (Num.lit 100) (Num.lit 5) (Num.lit 10);
              Loan "card" (Num.lit 50) (Num.lit 20) (Num.lit 10)]
      (Num.lit 20) = Ret (months, total_interest) /\
    0 <= total_interest.
Proof.
  apply (C7_total_interest_monotone (Num.lit 50) (Num.lit 5) (Num.lit 10)
           [Loan "car" (Num.lit 100) (Num.lit 5) (Num.lit 10);
            Loan "card" (Num.lit 50) (Num.lit 20) (Num.lit 10)]
           (Num.lit 20) 3).
  - discriminate.
  - repeat constructor; discriminate.
Defined.

(** ** Zero payment: the capped run *)

Module Unpaid.
Import Payoff.



End Unpaid.




(** ** Loans that are paid off *)

Module Skipped.
Import Sim.

Lemma not_positive l : balance l <= 0 -> positive l = false.
Proof. intros H. now apply NumFacts.ltb_ge. Qed.

(** The [for] loop leaves a loan with no balance where and as it is. *)
Lemma for_loans_lookup ls ti el i l :
  ls !! i = Some l -> balance l <= 0 ->
  (for_loans ls ti el).1.1 !! i = Some l.
Proof.
  revert i ti el. induction ls as [|l0 rest IH]; intros i ti el; [done|].
  cbn [for_loans]. intros Hi Hl.
  pose proof (Invariants.visit_skip l0 ti el) as Hv.
  destruct (visit l0 ti el) as [[l' ti1] el1].
  specialize (IH (pred i) ti1 el1).
  destruct (for_loans rest ti1 el1) as [[rest' ti2] el2].
  cbn [fst] in *. destruct i as [|i]; simpl in *.
  - injection Hi as ->. specialize (Hv Hl). now injection Hv as -> _ _.
  - now apply IH.
Qed.

(** The target of the extra payment has a balance above zero. *)
Lemma next_positive_lookup ls i :
  next_positive ls = Some i ->
  exists l, ls !! i = Some l /\ positive l = true.
Proof.
  revert i. induction ls as [|l0 rest IH]; intros i; [done|]. simpl.
  destruct (positive l0) eqn:P.
  - intros [= <-]. eauto.
  - destruct (next_positive rest) as [j|]; [|done].
    intros [= <-]. now apply IH.
Qed.

Lemma target_loan_lookup ls i :
  target_loan ls = Ret (Some i) ->
  exists l, ls !! i = Some l /\ positive l = true.
Proof.
  destruct ls as [|l0 rest]; [done|]. unfold target_loan.
  destruct (positive l0) eqn:P.
  - intros [= <-]. eauto.
  - intros [= H]. now apply next_positive_lookup.
Qed.

Lemma apply_extra_lookup ls el ls' i l :
  apply_extra ls el = Ret ls' ->
  ls !! i = Some l -> balance l <= 0 -> ls' !! i = Some l.
Proof.
  unfold apply_extra. destruct (Num.ltb 0 el); [|now intros [= <-]].
  destruct (target_loan ls) as [[t|]| |] eqn:T; simpl; try done.
  - intros [= <-] Hi Hl.
    destruct (target_loan_lookup ls t T) as (lt & Ht & Pt).
    rewrite list_lookup_alter_ne; [done|].
    intros ->. rewrite Hi in Ht. injection Ht as <-.
    rewrite not_positive in Pt; done.
  - now intros [= <-].
Qed.

Lemma body_lookup extra s s' i l :
  body extra s = Ret s' ->
  loans s !! i = Some l -> balance l <= 0 -> loans s' !! i = Some l.
Proof.
  unfold body. intros B Hi Hl.
  pose proof (for_loans_lookup (loans s) (total_interest s) extra i l Hi Hl)
    as Hf.
  destruct (for_loans (loans s) (total_interest s) extra) as [[ls ti] el].
  cbn [fst] in Hf.
  destruct (apply_extra ls (Num.py_max 0 el)) as [ls'| |] eqn:E;
    simpl in B; try discriminate.
  injection B as <-. cbn [loans]. eapply apply_extra_lookup; eauto.
Qed.

End Skipped.

(** C8.  A loan whose balance is zero or less when a month starts is
    skipped: its turn in the [for] loop changes neither the loan, nor
    [total_interest], nor the pool [extra_left] (no interest, no minimum
    payment); the whole month leaves it as it is (no extra payment); and
    so does every later month, from any state [s] of the simulation. *)
Theorem C8_paid_off_loans_are_skipped :
  forall (extra : Qc) (s : Sim.state) (i : nat) (l : loan),
    Sim.loans s !! i = Some l -> balance l <= 0 ->
    (forall ti el, Sim.visit l ti el = (l, ti, el)) /\
    (forall s', Sim.body extra s = Ret s' -> Sim.loans s' !! i = Some l) /\
    (forall n, exists s', Sim.after n extra s = Ret s' /\
                          Sim.loans s' !! i = Some l).
Proof.
  intros extra s i l Hi Hl.
  split; [intros ti el; now apply Invariants.visit_skip|].
  split; [intros s' B; eapply Skipped.body_lookup; eauto|].
  intros n.
  apply (iterations_total Sim.guard (Sim.body extra)
           (fun s => Sim.loans s !! i = Some l)); [|exact Hi].
  apply Invariants.body_step.
  intros s1 s2 H1 B. eapply Skipped.body_lookup; eauto.
Qed.

Lemma C8_paid_off_loans_are_skipped_witness :
  exists s', Sim.after 4 (Num.lit 30)
               (Sim.init [Loan "card" 0 (Num.lit 20) (Num.lit 10);
                          Loan "car" (Num.lit 100) (Num.lit 5) (Num.lit 10)])
             = Ret s' /\
             Sim.loans s' !! 0%nat
             = Some (Loan "card" 0 (Num.lit 20) (Num.lit 10)).
Proof.
  apply (C8_paid_off_loans_are_skipped (Num.lit 30)
           (Sim.init [Loan "card" 0 (Num.lit 20) (Num.lit 10);
                      Loan "car" (Num.lit 100) (Num.lit 5) (Num.lit 10)])
           0%nat (Loan "card" 0 (Num.lit 20) (Num.lit 10))).
  - reflexivity.
  - discriminate.
Defined.

(** ** A pool that is empty from the start *)

Module Pool.
Import Sim.

(** The turn of a loan takes an amount from the pool that does not
    depend on the pool, and changes the loan and the total alike
    whatever the pool. *)
Lemma visit_pool l ti el :
  visit l ti el
  = ((visit l ti 0).1.1, (visit l ti 0).1.2, el + (visit l ti 0).2).
Proof.
  unfold visit. destruct (Num.leb (balance l) 0); cbn [fst snd].
  - f_equal. ring.
  - f_equal. ring.
Qed.

Lemma for_loans_pool ls ti el :
  for_loans ls ti el
  = ((for_loans ls ti 0).1.1, (for_loans ls ti 0).1.2,
     el + (for_loans ls ti 0).2).
Proof.
  revert ti el. induction ls as [|l rest IH]; intros ti el.
  - cbn [for_loans fst snd]. f_equal. ring.
  - cbn [for_loans]. rewrite (visit_pool l ti el).
    destruct (visit l ti 0) as [[l' ti1] d1]. cbn [fst snd].
    rewrite (IH ti1 (el + d1)), (IH ti1 d1).
    destruct (for_loans rest ti1 0) as [[rest' ti2] d2]. cbn [fst snd].
    f_equal. ring.
Qed.

(** A payable loan pays an amount that is not negative. *)
Lemma visit_takes l ti : payable l -> (visit l ti 0).2 <= 0.
Proof.
  intros [Hm Hr]. unfold visit.
  destruct (Num.leb (balance l) 0) eqn:E; cbn [fst snd].
  - apply Qcle_refl.
  - apply NumFacts.leb_gt in E.
    cbn [balance set_balance min_payment rate]. unfold Num.py_min.
    assert (0 <= balance l
                 + balance l * (rate l / Num.lit 100 / Num.lit 12)) as Hb.
    { qc2q. change (this (Num.lit 1200)) with (1200 # 1)%Q in Hr.
      assert (0 <= this (balance l) * (1 + this (rate l) * (1 # 1200)))%Q
        by (apply Qmult_le_0_compat; lra).
      lra. }
    case_cmp; qc2q; lra.
Qed.

Lemma for_loans_takes ls ti :
  Forall payable ls -> (for_loans ls ti 0).2 <= 0.
Proof.
  intros H. revert ti. induction H as [|l rest Hl _ IH]; intros ti.
  - apply Qcle_refl.
  - cbn [for_loans]. pose proof (visit_takes l ti Hl) as Hv.
    destruct (visit l ti 0) as [[l' ti1] d1]. cbn [snd] in Hv.
    rewrite (for_loans_pool rest ti1 d1). specialize (IH ti1).
    destruct (for_loans rest ti1 0) as [[rest' ti2] d2]. cbn [fst snd] in *.
    qc2q. lra.
Qed.

Lemma payable_terms ls ls' :
  terms <$> ls' = terms <$> ls -> Forall payable ls -> Forall payable ls'.
Proof.
  intros E H.
  apply (Forall_fmap terms
           (fun t : string * Qc * Qc => 0 <= t.2 /\ - Num.lit 1200 <= t.1.2)).
  rewrite E. now apply Forall_fmap.
Qed.

(** With a budget of zero or less the month is the month of the budget
    zero, and the block of the extra payment is not entered. *)
Lemma body_no_extra extra s :
  extra <= 0 -> Forall payable (loans s) ->
  body extra s
  = Ret (State (for_loans (loans s) (total_interest s) 0).1.1
           (S (months s))
           (for_loans (loans s) (total_interest s) 0).1.2).
Proof.
  intros He Hp. unfold body.
  rewrite (for_loans_pool (loans s) (total_interest s) extra).
  pose proof (for_loans_takes (loans s) (total_interest s) Hp) as Hd.
  destruct (for_loans (loans s) (total_interest s) 0) as [[ls ti] d].
  cbn [fst snd] in *.
  assert (Num.py_max 0 (extra + d) = 0) as ->.
  { unfold Num.py_max.
    replace (Num.ltb 0 (extra + d)) with false; [done|].
    symmetry. apply NumFacts.ltb_ge. qc2q. lra. }
  reflexivity.
Qed.

Lemma loop_no_extra fuel extra s :
  extra <= 0 -> Forall payable (loans s) ->
  loop fuel extra s = loop fuel 0 s.
Proof.
  intros He. unfold loop. revert s.
  induction fuel as [|fuel IH]; intros s Hp; [reflexivity|].
  cbn [while_loop]. destruct (guard s); [|reflexivity].
  rewrite (body_no_extra extra s He Hp).
  rewrite (body_no_extra 0 s (Qcle_refl 0) Hp). cbn [bind].
  apply IH. cbn [loans].
  eapply payable_terms; [|exact Hp].
  apply Invariants.for_loans_terms.
Qed.

End Pool.

(** C10.  For every list of loans of the documented domain (a minimum
    payment that is not negative and a rate that is not negative; a rate
    of -1200 or more is enough) and every extra <= 0, [simulate loans
    extra] returns what [simulate loans 0] returns; the whole runs
    coincide, month by month, and in each month the pool is clamped to
    zero, so that balances change by interest and minimum payments
    only. *)
Theorem C10_nonpositive_extra_is_zero :
  forall (loans : list loan) (extra : Qc),
    extra <= 0 -> Forall payable loans ->
    simulate loans extra = simulate loans 0 /\
    (forall fuel,
        Sim.loop fuel extra (Sim.init loans)
        = Sim.loop fuel 0 (Sim.init loans)) /\
    (forall s, Forall payable (Sim.loans s) ->
               Sim.body extra s
               = Ret (Sim.State
                        (Sim.for_loans (Sim.loans s)
                           (Sim.total_interest s) 0).1.1
                        (S (Sim.months s))
                        (Sim.for_loans (Sim.loans s)
                           (Sim.total_interest s) 0).1.2)).
Proof.
  intros ls extra He Hp. split; [|split].
  - unfold simulate. now rewrite (Pool.loop_no_extra cap extra).
  - intros fuel. now apply Pool.loop_no_extra.
  - intros s Hs. now apply Pool.body_no_extra.
Qed.

Lemma C10_nonpositive_extra_is_zero_witness :
  simulate [Loan "car" (Num.lit 100) (Num.lit 5) (Num.lit 40);
            Loan "card" (Num.lit 50) (Num.lit 20) (Num.lit 30)]
    (- Num.lit 7)
  = simulate [Loan "car" (Num.lit 100) (Num.lit 5) (Num.lit 40);
              Loan "card" (Num.lit 50) (Num.lit 20) (Num.lit 30)] 0.
Proof.
  apply (C10_nonpositive_extra_is_zero
           [Loan "car" (Num.lit 100) (Num.lit 5) (Num.lit 40);
            Loan "card" (Num.lit 50) (Num.lit 20) (Num.lit 30)]
           (- Num.lit 7)).
  - discriminate.
  - repeat constructor; discriminate.
Defined.

(** The loans have to be of the documented domain.  A loan with a
    negative minimum payment, which the form refuses and the simulator
    does not, pays a negative amount into the pool: the loan (10 at -1200
    percent, minimum -10) is paid off in one month with the budget 0, and
    not within the cap with the budget -5. *)
Lemma negative_minimum_refills_pool :
  simulate [Loan "odd" (Num.lit 10) (- Num.lit 1200) (- Num.lit 10)] 0
  = Ret (1%nat, - Num.lit 10) /\
  simulate [Loan "odd" (Num.lit 10) (- Num.lit 1200) (- Num.lit 10)]
    (- Num.lit 5)
  = Ret (600%nat, - Num.lit 3005).
Proof. split; by_evaluation. Qed.

(** ** The two orders *)

Module OrderFacts.
Import Order.

Section Stable.

Context {A : Type} (key : A -> Qc).

Lemma insert_by_perm x l : insert_by key x l ≡ₚ x :: l.
Proof.
  induction l as [|y l IH]; simpl; [done|].
  destruct (Num.ltb (key y) (key x)); [|done].
  rewrite IH. apply perm_swap.
Qed.

Lemma stable_sort_perm l : stable_sort key l ≡ₚ l.
Proof.
  induction l as [|x l IH]; simpl; [done|].
  now rewrite insert_by_perm, IH.
Qed.

Lemma insert_by_ascending x l :
  ascending key l -> ascending key (insert_by key x l).
Proof.
  unfold ascending. induction 1 as [|y l Hl IH Hy]; simpl.
  - repeat constructor.
  - destruct (Num.ltb (key y) (key x)) eqn:E.
    + apply NumFacts.ltb_lt in E. constructor; [exact IH|].
      rewrite insert_by_perm. constructor; [|exact Hy].
      now apply Qclt_le_weak.
    + apply NumFacts.ltb_ge in E. constructor; [now constructor|].
      constructor; [exact E|].
      eapply Forall_impl; [exact Hy|].
      intros z Hz. simpl in Hz. eapply Qcle_trans; eauto.
Qed.

Lemma stable_sort_ascending l : ascending key (stable_sort key l).
Proof.
  induction l as [|x l IH]; simpl; [constructor|].
  now apply insert_by_ascending.
Qed.

Lemma insert_by_with_key k x l :
  with_key key k (insert_by key x l) = with_key key k (x :: l).
Proof.
  unfold with_key. induction l as [|y l IH]; simpl; [done|].
  destruct (Num.ltb (key y) (key x)) eqn:E; [|done].
  apply NumFacts.ltb_lt in E.
  rewrite (filter_cons _ y), IH, !(filter_cons _ x), (filter_cons _ y).
  destruct (decide (key x = k)) as [Hx|Hx]; [|done].
  destruct (decide (key y = k)) as [Hy|Hy]; [|done].
  rewrite Hx, Hy in E. now apply Qclt_not_eq in E.
Qed.

Lemma stable_sort_with_key k l :
  with_key key k (stable_sort key l) = with_key key k l.
Proof.
  induction l as [|x l IH]; simpl; [done|].
  rewrite insert_by_with_key. unfold with_key in *.
  now rewrite !(filter_cons _ x), IH.
Qed.

Lemma ascending_reverse l : ascending key l -> descending key (reverse l).
Proof.
  unfold ascending, descending. induction 1 as [|x l Hl IH Hx].
  - constructor.
  - rewrite reverse_cons.
    apply StronglySorted_app_2; [|exact IH|repeat constructor].
    intros a b Ha ->%list_elem_of_singleton.
    rewrite elem_of_reverse in Ha.
    rewrite Forall_forall in Hx. now apply Hx.
Qed.

Lemma with_key_reverse k l :
  with_key key k (reverse l) = reverse (with_key key k l).
Proof. apply filter_reverse. Qed.

(** [sorted] is a stable sort, in both directions. *)
Lemma sorted_spec (rv : bool) l :
  sorted key rv l ≡ₚ l /\
  (if rv then descending key (sorted key rv l)
   else ascending key (sorted key rv l)) /\
  (forall k, with_key key k (sorted key rv l) = with_key key k l).
Proof.
  destruct rv; unfold sorted.
  - split; [|split].
    + now rewrite reverse_Permutation, stable_sort_perm,
        reverse_Permutation.
    + apply ascending_reverse, stable_sort_ascending.
    + intros k.
      now rewrite with_key_reverse, stable_sort_with_key,
        with_key_reverse, reverse_involutive.
  - split; [|split].
    + apply stable_sort_perm.
    + apply stable_sort_ascending.
    + intros k. apply stable_sort_with_key.
Qed.

End Stable.

End OrderFacts.

(** C9.  [snowball] runs the simulation on the loans sorted ascending by
    balance, [avalanche] on the loans sorted descending by rate; each
    sorted list holds the loans of the input, and the loans that share a
    balance (for [snowball]) or a rate (for [avalanche]) stand in it in
    the order they have in the input. *)
Theorem C9_strategies_sort_stably :
  forall (loans : list loan) (extra : Qc),
    (snowball loans extra = simulate (sorted balance false loans) extra /\
     sorted balance false loans ≡ₚ loans /\
     Order.ascending balance (sorted balance false loans) /\
     (forall b, Order.with_key balance b (sorted balance false loans)
                = Order.with_key balance b loans)) /\
    (avalanche loans extra = simulate (sorted rate true loans) extra /\
     sorted rate true loans ≡ₚ loans /\
     Order.descending rate (sorted rate true loans) /\
     (forall r, Order.with_key rate r (sorted rate true loans)
                = Order.with_key rate r loans)).
Proof.
  intros ls extra.
  destruct (OrderFacts.sorted_spec balance false ls) as (P1 & S1 & K1).
  destruct (OrderFacts.sorted_spec rate true ls) as (P2 & S2 & K2).
  repeat split; assumption.
Qed.

(** ** Avalanche and snowball on the example *)

(** C2, as stated, fails in its first part: in the avalanche run on the
    example no extra payment reaches the 20%-rate loan.  While both loans
    are open their two minimum payments use up the budget of 20 (months 1
    to 5); in month 6 the 20%-rate loan is paid off by its own minimum
    payment, and what is left of the budget then and later goes to the
    5%-rate loan. *)
Lemma C2_counterexample :
  extra_targets Example.extra (sorted rate true Example.loans) 8
  = [None; None; None; None; None;
     Some (terms Example.low); Some (terms Example.low);
     Some (terms Example.low)] /\
  ~ Forall (fun t => forall x : string * Qc * Qc,
                t = Some x -> x.1.2 = Num.lit 20)
      (extra_targets Example.extra (sorted rate true Example.loans) 8).
Proof.
  assert (extra_targets Example.extra (sorted rate true Example.loans) 8
          = [None; None; None; None; None;
             Some (terms Example.low); Some (terms Example.low);
             Some (terms Example.low)]) as E by by_evaluation.
  split; [exact E|]. rewrite E. intros H.
  apply Forall_cons_1 in H as [_ H]. apply Forall_cons_1 in H as [_ H].
  apply Forall_cons_1 in H as [_ H]. apply Forall_cons_1 in H as [_ H].
  apply Forall_cons_1 in H as [_ H]. apply Forall_cons_1 in H as [H _].
  specialize (H _ eq_refl). discriminate H.
Qed.

Module Priority.
Import Sim.

(** The fixed terms of the loans stay what they are in a run. *)
Lemma after_terms n extra ls s :
  after n extra (init ls) = Ret s -> terms <$> loans s = terms <$> ls.
Proof.
  intros H.
  apply (iterations_invariant guard (body extra)
           (fun s => terms <$> loans s = terms <$> ls) n (init ls) s);
    [|reflexivity|exact H].
  intros s1 s2 H1 _ B.
  destruct (Invariants.body_inv extra s1 s2 B) as (_ & Ht & _).
  now rewrite Ht.
Qed.

(** On a list of two loans the second one is the target only when the
    first one is paid off. *)
Lemma target_of_two h l t :
  target_loan [h; l] = Ret t ->
  forall x, (i ← t; [h; l] !! i) = Some x ->
            x = h \/ (x = l /\ balance h <= 0).
Proof.
  unfold target_loan. cbn [next_positive].
  destruct (positive h) eqn:Hh.
  - intros [= <-] x [= <-]. now left.
  - apply NumFacts.ltb_ge in Hh.
    destruct (positive l); cbn [fmap option_fmap option_map].
    + intros [= <-] x [= <-]. now right.
    + intros [= <-] x. discriminate.
Qed.

End Priority.

(** C2, amended.  On the example both strategies put the 20%-rate loan
    first (it has the highest rate and the smallest balance), and the
    first loan has the priority: whatever the budget, in every month of
    the avalanche run an extra payment goes to the 20%-rate loan unless
    the minimum payments of that month have left it with no balance, and
    only then to the 5%-rate loan; with a budget of 30 the extra payments
    of months 1 to 3 go to the 20%-rate loan and those of months 4 to 6
    to the other.  With the budget of 20 the two minimum payments use up
    the pool while both loans are open: months 1 to 5 have no extra
    payment, and the extra payments of months 6 to 8 go to the 5%-rate
    loan.  The total interest after three months lies between 3.16 and
    3.17.  Both strategies run on the same list and return the same
    result: 8 months and a total interest between 4.75 and 4.77, so that
    avalanche's total is at most snowball's. *)
Theorem C2_avalanche_on_the_example :
  sorted rate true Example.loans = [Example.high; Example.low] /\
  sorted balance false Example.loans = [Example.high; Example.low] /\
  (forall (extra : Qc) (n : nat) (s : Sim.state) (t : loan),
      Sim.after n extra (Sim.init (sorted rate true Example.loans)) = Ret s ->
      Sim.extra_target extra s = Ret (Some t) ->
      terms t = terms Example.high \/
      (terms t = terms Example.low /\
       exists h,
         (Sim.for_loans (Sim.loans s) (Sim.total_interest s) extra).1.1
           !! 0%nat = Some h /\
         terms h = terms Example.high /\ balance h <= 0)) /\
  extra_targets (Num.lit 30) (sorted rate true Example.loans) 6
  = [Some (terms Example.high); Some (terms Example.high);
     Some (terms Example.high);
     Some (terms Example.low); Some (terms Example.low);
     Some (terms Example.low)] /\
  extra_targets Example.extra (sorted rate true Example.loans) 8
  = [None; None; None; None; None;
     Some (terms Example.low); Some (terms Example.low);
     Some (terms Example.low)] /\
  (exists s, Sim.after 3 Example.extra
               (Sim.init (sorted rate true Example.loans)) = Ret s /\
             Q2Qc (316 # 100) < Sim.total_interest s < Q2Qc (317 # 100)) /\
  (exists ia is_ : Qc,
      avalanche Example.loans Example.extra = Ret (8%nat, ia) /\
      snowball Example.loans Example.extra = Ret (8%nat, is_) /\
      ia = is_ /\ ia <= is_ /\
      Q2Qc (475 # 100) < ia < Q2Qc (477 # 100)).
Proof.
  assert (sorted rate true Example.loans = [Example.high; Example.low]) as Er
    by by_evaluation.
  assert (sorted balance false Example.loans = [Example.high; Example.low])
    as Eb by by_evaluation.
  split; [exact Er|]. split; [exact Eb|]. split.
  { intros extra n s t Hs Ht. rewrite Er in Hs.
    apply Priority.after_terms in Hs.
    pose proof (Invariants.for_loans_terms (Sim.loans s)
                  (Sim.total_interest s) extra) as Hf.
    rewrite Hs in Hf. unfold Sim.extra_target in Ht.
    destruct (Sim.for_loans (Sim.loans s) (Sim.total_interest s) extra)
      as [[ls ti] el]. cbn [fst] in *.
    destruct ls as [|h [|l [|? ?]]]; try discriminate Hf.
    assert (terms h = terms Example.high) as Hh
      by (apply (inj Some); exact (f_equal (fun x => x !! 0%nat) Hf)).
    assert (terms l = terms Example.low) as Hl
      by (apply (inj Some); exact (f_equal (fun x => x !! 1%nat) Hf)).
    destruct (Num.ltb 0 (Num.py_max 0 el)); [|discriminate].
    destruct (Sim.target_loan [h; l]) as [i| |] eqn:T; try discriminate.
    cbn [bind] in Ht. injection Ht as Ht.
    destruct (Priority.target_of_two h l i T t Ht) as [->|[-> Hp]].
    - now left.
    - right. split; [exact Hl|]. exists h. auto. }
  split; [by_evaluation|]. split; [by_evaluation|]. split.
  - destruct (Sim.after 3 Example.extra
                (Sim.init (sorted rate true Example.loans)))
      as [s| |] eqn:E; try (vm_compute in E; discriminate E).
    exists s. split; [reflexivity|].
    assert (Ret (Sim.total_interest s)
            = let* s := Sim.after 3 Example.extra
                          (Sim.init (sorted rate true Example.loans)) in
              Ret (Sim.total_interest s)) as H by (now rewrite E).
    assert ((let* s := Sim.after 3 Example.extra
                         (Sim.init (sorted rate true Example.loans)) in
             Ret (Sim.total_interest s)) = Ret (Q2Qc (29207 # 9216))) as H'
        by by_evaluation.
    rewrite H' in H. injection H as ->. split; reflexivity.
  - assert (simulate [Example.high; Example.low] Example.extra
            = Ret (8%nat, Q2Qc (174641485697170723 # 36691771392000000)))
      as Hrun by by_evaluation.
    eexists _, _. unfold avalanche, snowball. rewrite Er, Eb.
    split; [exact Hrun|]. split; [exact Hrun|].
    split; [reflexivity|]. split; [apply Qcle_refl|]. split; reflexivity.
Qed.

(** ** The store-level run computes the value-level run *)

Module StoreFacts.
Import Store.

Lemma read_at pre l post :
  read (length pre) (pre ++ l :: post) = Ret (l, pre ++ l :: post).
Proof. unfold read. now rewrite list_lookup_middle. Qed.

Lemma write_at pre l post v :
  write (length pre) v (pre ++ l :: post) = Ret (tt, pre ++ v :: post).
Proof.
  unfold write. rewrite decide_True by (rewrite length_app; simpl; lia).
  replace (length pre) with (length pre + 0)%nat at 1 by lia.
  now rewrite insert_app_r.
Qed.

Lemma store_balance_at pre l post b :
  store_balance (length pre) b (pre ++ l :: post)
  = Ret (tt, pre ++ set_balance l b :: post).
Proof. unfold store_balance, and_then. rewrite read_at. apply write_at. Qed.

Lemma visit_at pre l post ti el :
  visit (length pre) ti el (pre ++ l :: post)
  = Ret (((Sim.visit l ti el).1.2, (Sim.visit l ti el).2),
         pre ++ (Sim.visit l ti el).1.1 :: post).
Proof.
  unfold visit, Sim.visit, and_then. rewrite read_at.
  destruct (Num.leb (balance l) 0); [reflexivity|].
  rewrite store_balance_at, read_at, store_balance_at. reflexivity.
Qed.

Lemma for_loans_at pre ls post ti el :
  for_loans (seq (length pre) (length ls)) ti el (pre ++ ls ++ post)
  = Ret (((Sim.for_loans ls ti el).1.2, (Sim.for_loans ls ti el).2),
         pre ++ (Sim.for_loans ls ti el).1.1 ++ post).
Proof.
  revert pre ti el. induction ls as [|l rest IH]; intros pre ti el.
  - reflexivity.
  - cbn [length seq for_loans Sim.for_loans app]. unfold and_then.
    rewrite visit_at.
    destruct (Sim.visit l ti el) as [[l' ti1] el1]. cbn [fst snd].
    specialize (IH (pre ++ [l']) ti1 el1).
    rewrite length_app, Nat.add_1_r, <- !(assoc_L (++)) in IH.
    cbn [app] in IH. rewrite IH.
    destruct (Sim.for_loans rest ti1 el1) as [[rest' ti2] el2].
    reflexivity.
Qed.

Lemma any_positive_at pre ls post :
  any_positive (seq (length pre) (length ls)) (pre ++ ls ++ post)
  = Ret (existsb positive ls, pre ++ ls ++ post).
Proof.
  revert pre. induction ls as [|l rest IH]; intros pre; [reflexivity|].
  cbn [length seq any_positive existsb app]. unfold and_then.
  rewrite read_at. destruct (positive l); [reflexivity|].
  specialize (IH (pre ++ [l])).
  rewrite length_app, Nat.add_1_r, <- !(assoc_L (++)) in IH.
  exact IH.
Qed.

Lemma next_positive_at pre ls post :
  next_positive (seq (length pre) (length ls)) (pre ++ ls ++ post)
  = Ret ((fun i => length pre + i)%nat <$> Sim.next_positive ls,
         pre ++ ls ++ post).
Proof.
  revert pre. induction ls as [|l rest IH]; intros pre; [reflexivity|].
  cbn [length seq next_positive Sim.next_positive app]. unfold and_then.
  rewrite read_at. destruct (positive l).
  - cbn. now rewrite Nat.add_0_r.
  - specialize (IH (pre ++ [l])).
    rewrite length_app, Nat.add_1_r, <- !(assoc_L (++)) in IH.
    cbn [app] in IH. rewrite IH.
    destruct (Sim.next_positive rest) as [i|]; cbn; [|reflexivity].
    do 3 f_equal. lia.
Qed.

Lemma target_loan_at pre ls post :
  target_loan (seq (length pre) (length ls)) (pre ++ ls ++ post)
  = framed pre post
      (fun t => ((fun i => length pre + i)%nat <$> t, ls))
      (Sim.target_loan ls).
Proof.
  destruct ls as [|l0 rest]; [reflexivity|].
  pose proof (next_positive_at pre (l0 :: rest) post) as Hn.
  cbn [length seq target_loan Sim.target_loan app framed fst snd] in *.
  unfold and_then. rewrite read_at. destruct (positive l0) eqn:P.
  - cbn. now rewrite Nat.add_0_r.
  - exact Hn.
Qed.

(** An update through the reference of the [i]-th copy. *)
Lemma store_balance_copy pre ls post i l b :
  ls !! i = Some l ->
  store_balance (length pre + i) b (pre ++ ls ++ post)
  = Ret (tt, pre ++ <[i := set_balance l b]> ls ++ post).
Proof.
  intros (l1 & l2 & -> & ->)%list_elem_of_split_length.
  replace (length pre + length l1)%nat with (length (pre ++ l1))
    by apply length_app.
  replace (pre ++ (l1 ++ l :: l2) ++ post)
    with ((pre ++ l1) ++ l :: (l2 ++ post))
    by (now rewrite <- !(assoc_L (++))).
  rewrite store_balance_at. do 2 f_equal.
  replace (length l1) with (length l1 + 0)%nat by lia.
  rewrite insert_app_r. cbn. now rewrite <- !(assoc_L (++)).
Qed.

Lemma read_copy pre ls post i l :
  ls !! i = Some l ->
  read (length pre + i) (pre ++ ls ++ post) = Ret (l, pre ++ ls ++ post).
Proof.
  intros Hi. unfold read.
  rewrite lookup_app_r by lia.
  replace (length pre + i - length pre)%nat with i by lia.
  now rewrite (lookup_app_l_Some _ _ _ _ Hi).
Qed.

Lemma apply_extra_at pre ls post el :
  apply_extra (seq (length pre) (length ls)) el (pre ++ ls ++ post)
  = framed pre post (fun ls' => (tt, ls')) (Sim.apply_extra ls el).
Proof.
  unfold apply_extra, Sim.apply_extra.
  destruct (Num.ltb 0 el); [|reflexivity].
  unfold and_then. rewrite target_loan_at.
  destruct (Sim.target_loan ls) as [[i|]| |] eqn:T;
    cbn [framed fst snd fmap option_fmap option_map bind];
    try reflexivity.
  destruct (Skipped.target_loan_lookup ls i T) as (l & Hi & _).
  rewrite (read_copy pre ls post i l Hi).
  rewrite (store_balance_copy pre ls post i l _ Hi).
  do 4 f_equal. unfold Sim.pay_extra.
  rewrite list_insert_alter.
  apply list_alter_ext; [|done..]. intros x Hx.
  rewrite Hi in Hx. now injection Hx as <-.
Qed.

Lemma apply_extra_length ls el ls' :
  Sim.apply_extra ls el = Ret ls' -> length ls' = length ls.
Proof.
  intros [->|[i ->]]%Invariants.apply_extra_cases; [done|].
  apply length_alter.
Qed.

(** The loop on the copies [ls], which stand in the store after [pre]. *)
Lemma loop_at pre post fuel extra ls m ti :
  loop fuel (seq (length pre) (length ls)) extra m ti (pre ++ ls ++ post)
  = framed pre post
      (fun s => ((Sim.months s, Sim.total_interest s), Sim.loans s))
      (Sim.loop fuel extra (Sim.State ls m ti)).
Proof.
  unfold Sim.loop. revert ls m ti.
  induction fuel as [|fuel IH]; intros ls m ti.
  - cbn [loop while_loop]. unfold and_then. rewrite any_positive_at.
    unfold Sim.guard. cbn [Sim.loans Sim.months].
    destruct (existsb positive ls && (m <? cap)%nat); reflexivity.
  - cbn [loop while_loop]. unfold and_then. rewrite any_positive_at.
    unfold Sim.guard. cbn [Sim.loans Sim.months].
    destruct (existsb positive ls && (m <? cap)%nat); [|reflexivity].
    rewrite for_loans_at. unfold Sim.body.
    cbn [Sim.loans Sim.months Sim.total_interest].
    pose proof (SimFacts.for_loans_length ls ti extra) as Hlen.
    destruct (Sim.for_loans ls ti extra) as [[ls1 ti1] el1].
    cbn [fst snd] in *. rewrite <- Hlen, apply_extra_at.
    destruct (Sim.apply_extra ls1 (Num.py_max 0 el1)) as [ls2| |] eqn:E;
      cbn [framed bind fst snd]; try reflexivity.
    rewrite <- (apply_extra_length _ _ _ E). apply IH.
Qed.

Lemma refers_exists h rs :
  Forall (fun r => (r < length h)%nat) rs -> exists ls, refers h rs ls.
Proof.
  intros H. apply Forall_exists_Forall2_l.
  eapply Forall_impl; [exact H|].
  intros r Hr. now apply lookup_lt_is_Some_2.
Qed.

(** The copies are new records, after all those of the store. *)
Lemma copy_all_at h acc rs ls :
  refers h rs ls ->
  copy_all rs (h ++ acc)
  = Ret (seq (length h + length acc) (length ls), h ++ acc ++ ls).
Proof.
  intros H. revert acc. induction H as [|r l rs ls Hr _ IH]; intros acc.
  - cbn. now rewrite app_nil_r.
  - cbn [copy_all length seq]. unfold copy, and_then, read, alloc.
    rewrite (lookup_app_l_Some _ _ _ _ Hr).
    rewrite <- (assoc_L (++) h), (IH (acc ++ [l])). unfold pure.
    rewrite !length_app. cbn [length].
    rewrite <- (assoc_L (++) acc). cbn [app].
    replace (length h + (length acc + 1))%nat
      with (S (length h + length acc)) by lia.
    reflexivity.
Qed.

Lemma simulate_at h rs ls extra :
  refers h rs ls ->
  simulate rs extra h
  = framed h []
      (fun s => ((Sim.months s, Sim.total_interest s), Sim.loans s))
      (Sim.loop cap extra (Sim.init ls)).
Proof.
  intros H. unfold simulate, and_then.
  pose proof (copy_all_at h [] rs ls H) as Hc.
  rewrite app_nil_r, Nat.add_0_r in Hc. cbn [app] in Hc. rewrite Hc.
  rewrite <- (app_nil_r ls) at 2. apply loop_at.
Qed.

(** *** Sorting the references *)

Lemma read_all_at h rs ls :
  refers h rs ls -> read_all rs h = Ret (ls, h).
Proof.
  induction 1 as [|r l rs ls Hr _ IH]; [reflexivity|].
  cbn [read_all]. unfold and_then, read. now rewrite Hr, IH.
Qed.

Section SortMap.

Context {A B : Type} (f : A -> B) (key : B -> Qc).

Lemma insert_by_fmap x l :
  f <$> insert_by (fun a => key (f a)) x l
  = insert_by key (f x) (f <$> l).
Proof.
  induction l as [|y l IH]; [reflexivity|]. cbn [insert_by fmap list_fmap].
  destruct (Num.ltb (key (f y)) (key (f x))); [|reflexivity].
  rewrite fmap_cons. now f_equal.
Qed.

Lemma stable_sort_fmap l :
  f <$> stable_sort (fun a => key (f a)) l = stable_sort key (f <$> l).
Proof.
  induction l as [|x l IH]; [reflexivity|]. cbn [stable_sort].
  now rewrite insert_by_fmap, IH.
Qed.

Lemma sorted_fmap rv l :
  f <$> sorted (fun a => key (f a)) rv l = sorted key rv (f <$> l).
Proof.
  unfold sorted. destruct rv; [|apply stable_sort_fmap].
  now rewrite fmap_reverse, stable_sort_fmap, fmap_reverse.
Qed.

End SortMap.

Lemma refers_zip h rs ls :
  refers h rs ls ->
  Forall (fun p : loan * nat => h !! p.2 = Some p.1) (zip ls rs).
Proof. induction 1; now constructor. Qed.

(** The sorted references refer to the sorted records. *)
Lemma sorted_refs_at h key rv rs ls :
  refers h rs ls ->
  exists rs', sorted_refs key rv rs h = Ret (rs', h) /\
              refers h rs' (sorted key rv ls).
Proof.
  intros H. unfold sorted_refs, and_then.
  rewrite (read_all_at h rs ls H). unfold pure.
  eexists. split; [reflexivity|].
  pose proof (Forall2_length _ _ _ H) as Hlen.
  rewrite <- (fst_zip ls rs) at 2 by lia.
  rewrite <- (sorted_fmap fst key).
  unfold refers. apply Forall2_fmap_2, Forall_Forall2_diag.
  destruct (OrderFacts.sorted_spec (fun p : loan * nat => key p.1) rv
              (zip ls rs)) as [Hperm _].
  rewrite Hperm. now apply refers_zip.
Qed.

End StoreFacts.

Lemma simulate_keeps h rs ls extra :
  Store.refers h rs ls ->
  returns_and_keeps h (Store.simulate rs extra) (simulate ls extra).
Proof.
  intros H. unfold returns_and_keeps.
  rewrite (StoreFacts.simulate_at h rs ls extra H). unfold simulate.
  destruct (SimFacts.loop_terminates extra ls 0) as [(s & Hs & _) _].
  rewrite Hs. cbn [Store.framed bind fst snd].
  eexists _, _. split; [reflexivity|]. split; [reflexivity|].
  intros r Hr. now apply lookup_app_l.
Qed.

Lemma sorted_simulate_keeps h key rv rs ls extra :
  Store.refers h rs ls ->
  returns_and_keeps h
    (Store.and_then (Store.sorted_refs key rv rs)
       (fun rs' => Store.simulate rs' extra))
    (simulate (sorted key rv ls) extra).
Proof.
  intros H.
  destruct (StoreFacts.sorted_refs_at h key rv rs ls H) as (rs' & E & H').
  destruct (simulate_keeps h rs' _ extra H') as (res & h' & E' & V & K).
  exists res, h'. unfold Store.and_then. rewrite E. auto.
Qed.

(** C3.  In a store [h] of loan records, for every list [rs] of
    references to records of [h] (with or without repetitions) and every
    extra, the calls of [simulate], [snowball] and [avalanche] return
    (what the value-level functions return on the records referred to),
    and every record of [h] holds after the call the values it held
    before: the updates go to the copies made on entry, which are new
    records. *)
Theorem C3_caller_loans_untouched :
  forall (h : list loan) (rs : list nat) (extra : Qc),
    Forall (fun r => (r < length h)%nat) rs ->
    exists ls,
      Store.refers h rs ls /\
      returns_and_keeps h (Store.simulate rs extra) (simulate ls extra) /\
      returns_and_keeps h (Store.snowball rs extra) (snowball ls extra) /\
      returns_and_keeps h (Store.avalanche rs extra) (avalanche ls extra).
Proof.
  intros h rs extra Hrs.
  destruct (StoreFacts.refers_exists h rs Hrs) as [ls H].
  exists ls. split; [exact H|]. split; [|split].
  - now apply simulate_keeps.
  - now apply sorted_simulate_keeps.
  - now apply sorted_simulate_keeps.
Qed.

Lemma C3_caller_loans_untouched_witness :
  exists ls,
    Store.refers [Example.low; Example.high] [1; 0; 1]%nat ls /\
    returns_and_keeps [Example.low; Example.high]
      (Store.simulate [1; 0; 1]%nat Example.extra)
      (simulate ls Example.extra) /\
    returns_and_keeps [Example.low; Example.high]
      (Store.snowball [1; 0; 1]%nat Example.extra)
      (snowball ls Example.extra) /\
    returns_and_keeps [Example.low; Example.high]
      (Store.avalanche [1; 0; 1]%nat Example.extra)
      (avalanche ls Example.extra).
Proof.
  apply (C3_caller_loans_untouched [Example.low; Example.high]
           [1; 0; 1]%nat Example.extra).
  repeat constructor.
Defined.

(** Without the copies the same loop does change the caller's records:
    run on the references themselves, the example leaves another balance
    in the first record of the store. *)
Lemma loop_without_copy_mutates :
  exists res h',
    Store.loop cap [0; 1]%nat Example.extra 0 0 [Example.low; Example.high]
    = Ret (res, h') /\
    h' !! 0%nat <> Some Example.low.
Proof.
  destruct (Store.loop cap [0; 1]%nat Example.extra 0 0
              [Example.low; Example.high]) as [[res h']| |] eqn:E;
    try (vm_compute in E; discriminate E).
  exists res, h'. split; [reflexivity|].
  intros Hl.
  assert ((balance <$> h' !! 0%nat) = Some (Num.lit 100)) as Hb
    by (now rewrite Hl).
  assert (Store.and_then
            (Store.loop cap [0; 1]%nat Example.extra 0 0)
            (fun _ h => Ret (balance <$> h !! 0%nat, h))
            [Example.low; Example.high]
          = Ret (Some (Num.lit 100), h')) as Hrun
      by (unfold Store.and_then; now rewrite E, Hb).
  vm_compute in Hrun. discriminate Hrun.
Qed.

(** * Further properties of the code *)

(** Case analysis on a comparison of the goal whose operands hold no
    conditional: the innermost comparisons first. *)
Ltac no_conditional t :=
  lazymatch t with
  | context [if _ then _ else _] => fail
  | _ => idtac
  end.

Ltac case_inner_cmp :=
  match goal with
  | |- context [Num.ltb ?x ?y] =>
      no_conditional x; no_conditional y;
      let E := fresh "E" in
      destruct (Num.ltb x y) eqn:E;
      [apply NumFacts.ltb_lt in E | apply NumFacts.ltb_ge in E]
  end.

(** ** One loan *)

Module SingleLoan.

Lemma apply_extra_single l el :
  Sim.apply_extra [l] el
  = Ret [if Num.ltb 0 el && positive l then Sim.pay_extra el l else l].
Proof.
  unfold Sim.apply_extra, Sim.target_loan. cbn [Sim.next_positive].
  destruct (Num.ltb 0 el); [|reflexivity].
  destruct (positive l); reflexivity.
Qed.

(** With a budget that the minimum payment uses up, the block of the extra
    payment changes nothing: what is left after the minimum payment is the
    balance that [calculate_payoff] computes, clamp included. *)
Lemma minimum_uses_budget (b1 m extra : Qc) :
  extra <= m ->
  (if Num.ltb 0 (Num.py_max 0 (extra - Num.py_min m b1))
      && Num.ltb 0 (b1 - Num.py_min m b1)
   then b1 - Num.py_min m b1
        - Num.py_min (Num.py_max 0 (extra - Num.py_min m b1))
            (b1 - Num.py_min m b1)
   else b1 - Num.py_min m b1)
  = (if Num.ltb (b1 - m) 0 then 0 else b1 - m).
Proof.
  intros He. unfold Num.py_min, Num.py_max.
  repeat (case_inner_cmp; cbn [andb]);
    solve [ exfalso; qc2q; lra | qc2q; lra ].
Qed.

Lemma body_single n b r m extra k ti :
  extra <= m -> 0 < b ->
  Sim.body extra (Sim.State [Loan n b r m] k ti)
  = Ret (Sim.State
           [Loan n (Payoff.balance
                      (Payoff.body r m (Payoff.State b k ti)))
              r m]
           (S k) (ti + b * (r / Num.lit 100 / Num.lit 12))).
Proof.
  intros He Hb. unfold Sim.body.
  cbn [Sim.loans Sim.total_interest Sim.months Sim.for_loans].
  unfold Sim.visit. cbn [balance rate min_payment set_balance].
  replace (Num.leb b 0) with false by (symmetry; now apply NumFacts.leb_gt).
  rewrite apply_extra_single. cbn [bind]. do 3 f_equal.
  unfold positive, Sim.pay_extra, Payoff.body.
  cbn [balance set_balance Payoff.balance].
  set (b1 := b + b * (r / Num.lit 100 / Num.lit 12)).
  rewrite <- (minimum_uses_budget b1 m extra He).
  destruct (Num.ltb 0 (Num.py_max 0 (extra - Num.py_min m b1))
            && Num.ltb 0 (b1 - Num.py_min m b1)); reflexivity.
Qed.

Lemma loop_single n r m extra fuel b k ti :
  extra <= m ->
  (let* s := Sim.loop fuel extra (Sim.State [Loan n b r m] k ti) in
   Ret (Sim.months s, Sim.total_interest s))
  = (let* s := Payoff.loop fuel r m (Payoff.State b k ti) in
     Ret (Payoff.months s, Payoff.total_interest s)).
Proof.
  intros He. unfold Sim.loop, Payoff.loop. revert b k ti.
  induction fuel as [|fuel IH]; intros b k ti.
  - cbn [while_loop]. unfold Sim.guard, Payoff.guard, positive.
    cbn [Sim.loans Sim.months existsb balance Payoff.balance Payoff.months].
    rewrite orb_false_r.
    destruct (Num.ltb 0 b && (k <? cap)%nat); reflexivity.
  - cbn [while_loop]. unfold Sim.guard, Payoff.guard, positive.
    cbn [Sim.loans Sim.months existsb balance Payoff.balance Payoff.months].
    rewrite orb_false_r.
    destruct (Num.ltb 0 b) eqn:Hb; [|reflexivity].
    destruct (k <? cap)%nat; [|reflexivity]. cbn [andb].
    apply NumFacts.ltb_lt in Hb.
    rewrite (body_single n b r m extra k ti He Hb).
    cbn [bind]. apply IH.
Qed.

End SingleLoan.

(** X1.  On a single loan, with a budget that is not greater than the
    minimum payment (the budget 0, for instance), [simulate] is
    [calculate_payoff] with the minimum payment as the monthly payment:
    the two calls return the same months and the same total interest. *)
Theorem single_loan_simulate_is_calculate_payoff :
  forall (l : loan) (extra : Qc),
    extra <= min_payment l ->
    simulate [l] extra
    = calculate_payoff (balance l) (rate l) (min_payment l).
Proof.
  intros [n b r m] extra He. unfold simulate, calculate_payoff.
  now apply SingleLoan.loop_single.
Qed.

Lemma single_loan_simulate_is_calculate_payoff_witness :
  simulate [Example.low] (Num.lit 10)
  = calculate_payoff (Num.lit 100) (Num.lit 5) (Num.lit 10).
Proof.
  apply (single_loan_simulate_is_calculate_payoff Example.low (Num.lit 10)).
  discriminate.
Defined.

(** ** The end of a run *)

Module Exit.

Lemma existsb_positive_false ls :
  existsb positive ls = false <-> Forall cleared ls.
Proof.
  induction ls as [|l ls IH]; simpl.
  - split; [constructor | reflexivity].
  - rewrite orb_false_iff, IH, Forall_cons. unfold positive, cleared.
    now rewrite NumFacts.ltb_ge.
Qed.




End Exit.


(** X3.  When nothing is owed (a balance of zero or less, or loans that all
    have one) the four functions return (0, 0), whatever the rates and the
    payments. *)
Theorem nothing_owed_returns_zero :
  forall (b r p : Qc) (ls : list loan) (extra : Qc),
    b <= 0 -> Forall cleared ls ->
    calculate_payoff b r p = Ret (0%nat, 0) /\
    simulate ls extra = Ret (0%nat, 0) /\
    snowball ls extra = Ret (0%nat, 0) /\
    avalanche ls extra = Ret (0%nat, 0).
Proof.
  intros b r p ls extra Hb Hls.
  assert (forall ls', Forall cleared ls' -> simulate ls' extra = Ret (0%nat, 0))
    as Hsim.
  { intros ls' H. unfold simulate, Sim.loop.
    change cap with (S (Nat.pred cap)). cbn [while_loop].
    unfold Sim.guard. cbn [Sim.loans Sim.init].
    now rewrite (proj2 (Exit.existsb_positive_false ls') H). }
  split; [|split; [|split]].
  - unfold calculate_payoff, Payoff.loop.
    change cap with (S (Nat.pred cap)). cbn [while_loop].
    unfold Payoff.guard. cbn [Payoff.balance Payoff.init].
    now rewrite (proj2 (NumFacts.ltb_ge 0 b) Hb).
  - now apply Hsim.
  - apply Hsim.
    destruct (OrderFacts.sorted_spec balance false ls) as [P _].
    now rewrite P.
  - apply Hsim.
    destruct (OrderFacts.sorted_spec rate true ls) as [P _].
    now rewrite P.
Qed.

Lemma nothing_owed_returns_zero_witness :
  calculate_payoff 0 (Num.lit 5) (Num.lit 10) = Ret (0%nat, 0) /\
  simulate [Loan "paid" 0 (Num.lit 5) (Num.lit 10)] (Num.lit 20)
  = Ret (0%nat, 0) /\
  snowball [Loan "paid" 0 (Num.lit 5) (Num.lit 10)] (Num.lit 20)
  = Ret (0%nat, 0) /\
  avalanche [Loan "paid" 0 (Num.lit 5) (Num.lit 10)] (Num.lit 20)
  = Ret (0%nat, 0).
Proof.
  apply (nothing_owed_returns_zero 0 (Num.lit 5) (Num.lit 10)
           [Loan "paid" 0 (Num.lit 5) (Num.lit 10)] (Num.lit 20)).
  - discriminate.
  - repeat constructor. discriminate.
Defined.

(** ** No interest *)

Module ZeroRate.

Lemma payments_succ n p : payments (S n) p = payments n p + p.
Proof.
  unfold payments, Num.lit. qc2q.
  change (this (Qc_of_Z (Z.of_nat (S n)))) with (inject_Z (Z.of_nat (S n))).
  change (this (Qc_of_Z (Z.of_nat n))) with (inject_Z (Z.of_nat n)).
  rewrite Nat2Z.inj_succ. unfold Z.succ. rewrite inject_Z_plus. ring.
Qed.

Lemma payments_zero p : payments 0 p = 0.
Proof.
  unfold payments. qc2q.
  change (this (Num.lit (Z.of_nat 0))) with (inject_Z 0). ring.
Qed.

Lemma payments_mono n k p : 0 < p -> (k <= n)%nat -> payments k p <= payments n p.
Proof.
  intros Hp. induction 1 as [|n _ IH]; [apply Qcle_refl|].
  rewrite payments_succ. qc2q. lra.
Qed.

Lemma no_interest : 0 / Num.lit 100 / Num.lit 12 = 0.
Proof. by_evaluation. Qed.

(** A month that does not end the payoff. *)
Lemma body_open b p k :
  payments (S k) p < b ->
  Payoff.body 0 p (Payoff.State (b - payments k p) k 0)
  = Payoff.State (b - payments (S k) p) (S k) 0.
Proof.
  intros H. unfold Payoff.body. cbn [Payoff.balance Payoff.months Payoff.total_interest].
  rewrite no_interest.
  replace (b - payments k p + (b - payments k p) * 0 - p)
    with (b - payments (S k) p) by (rewrite payments_succ; ring).
  replace (Num.ltb (b - payments (S k) p) 0) with false
    by (symmetry; apply NumFacts.ltb_ge; qc2q; lra).
  f_equal. ring.
Qed.

(** The month of the last payment, or month 600. *)
Lemma body_last b p k :
  exists bal,
    Payoff.body 0 p (Payoff.State (b - payments k p) k 0)
    = Payoff.State bal (S k) 0 /\
    (b <= payments (S k) p -> bal <= 0).
Proof.
  unfold Payoff.body. cbn [Payoff.balance Payoff.months Payoff.total_interest].
  rewrite no_interest. eexists. split.
  - f_equal. ring.
  - intros H. rewrite payments_succ in H. case_cmp; qc2q; lra.
Qed.

Lemma loop_counts b p n :
  0 < p -> (n <= cap)%nat -> payments (Nat.pred n) p < b ->
  b <= payments n p \/ n = cap ->
  forall d k fuel,
    (k + S d = n)%nat -> (S d <= fuel)%nat ->
    exists bal,
      Payoff.loop fuel 0 p (Payoff.State (b - payments k p) k 0)
      = Ret (Payoff.State bal n 0).
Proof.
  intros Hp Hn Hlow Hup. unfold Payoff.loop.
  induction d as [|d IH]; intros k fuel Hk Hfuel.
  - destruct fuel as [|fuel]; [lia|]. cbn [while_loop].
    assert (payments k p < b) as Hk'.
    { replace k with (Nat.pred n) by lia. exact Hlow. }
    replace (Payoff.guard (Payoff.State (b - payments k p) k 0)) with true.
    2:{ symmetry. unfold Payoff.guard. cbn [Payoff.balance Payoff.months].
        apply andb_true_iff. split.
        - apply NumFacts.ltb_lt. qc2q. lra.
        - apply Nat.ltb_lt. lia. }
    cbn [bind]. destruct (body_last b p k) as (bal & -> & Hbal).
    exists bal. replace (S k) with n by lia.
    assert (Payoff.guard (Payoff.State bal n 0) = false) as G.
    { unfold Payoff.guard. cbn [Payoff.balance Payoff.months].
      destruct Hup as [Hup | ->].
      - apply andb_false_iff. left. apply NumFacts.ltb_ge, Hbal.
        now replace (S k) with n by lia.
      - now rewrite Nat.ltb_irrefl, andb_false_r. }
    destruct fuel; cbn [while_loop]; now rewrite G.
  - destruct fuel as [|fuel]; [lia|]. cbn [while_loop].
    assert (payments (S k) p < b) as Hk'.
    { eapply Qcle_lt_trans; [|exact Hlow]. apply payments_mono; [exact Hp|lia]. }
    assert (payments k p < b) as Hk''.
    { eapply Qcle_lt_trans; [|exact Hk']. apply payments_mono; [exact Hp|lia]. }
    replace (Payoff.guard (Payoff.State (b - payments k p) k 0)) with true.
    2:{ symmetry. unfold Payoff.guard. cbn [Payoff.balance Payoff.months].
        apply andb_true_iff. split.
        - apply NumFacts.ltb_lt. qc2q. lra.
        - apply Nat.ltb_lt. lia. }
    cbn [bind]. rewrite (body_open b p k Hk').
    apply IH; lia.
Qed.

(** Whole amounts. *)
Lemma lit_lt a b : (a < b)%Z -> Num.lit a < Num.lit b.
Proof.
  intros H. unfold Num.lit. apply NumFacts.Qclt_this.
  change (inject_Z a < inject_Z b)%Q. now rewrite <- Zlt_Qlt.
Qed.

Lemma lit_le a b : (a <= b)%Z -> Num.lit a <= Num.lit b.
Proof.
  intros H. unfold Num.lit. apply NumFacts.Qcle_this.
  change (inject_Z a <= inject_Z b)%Q. now rewrite <- Zle_Qle.
Qed.

Lemma payments_lit n p :
  payments n (Num.lit p) = Num.lit (Z.of_nat n * p).
Proof.
  unfold payments, Num.lit. apply Qc_is_canon. rewrite NumFacts.this_mult.
  change (inject_Z (Z.of_nat n) * inject_Z p == inject_Z (Z.of_nat n * p))%Q.
  now rewrite inject_Z_mult.
Qed.

End ZeroRate.

(** X4.  Without interest the months are the payments needed, for whole
    amounts: at the rate 0, with a balance [b] of at most 2^53 and a
    payment [p > 0] that are whole numbers, [calculate_payoff b 0 p]
    returns [n] months and no interest when [(n - 1) * p < b <= n * p] and
    [n <= 600], and 600 months when [599 * p < b].  (Whole numbers up to
    2^53 are the amounts that the code subtracts without rounding.) *)
Theorem zero_rate_payoff_counts_payments :
  forall (b p : Z) (n : nat),
    (0 < p)%Z -> (b <= 2 ^ 53)%Z -> (1 <= n <= 600)%nat ->
    (Z.of_nat (n - 1) * p < b)%Z ->
    (b <= Z.of_nat n * p)%Z \/ n = 600%nat ->
    calculate_payoff (Num.lit b) 0 (Num.lit p) = Ret (n, 0).
Proof.
  intros b p n Hp _ [H1 Hn] Hlow Hup. unfold calculate_payoff.
  destruct (ZeroRate.loop_counts (Num.lit b) (Num.lit p) n)
    with (d := (n - 1)%nat) (k := 0%nat) (fuel := cap) as [bal Hrun].
  - now apply (ZeroRate.lit_lt 0 p).
  - exact Hn.
  - replace (Nat.pred n) with (n - 1)%nat by lia.
    rewrite ZeroRate.payments_lit. now apply ZeroRate.lit_lt.
  - destruct Hup as [Hup|Hup]; [left|now right].
    rewrite ZeroRate.payments_lit. now apply ZeroRate.lit_le.
  - lia.
  - unfold cap. lia.
  - rewrite ZeroRate.payments_zero in Hrun.
    replace (Num.lit b - 0) with (Num.lit b) in Hrun by ring.
    unfold Payoff.init. rewrite Hrun. reflexivity.
Qed.

Lemma zero_rate_payoff_counts_payments_witness :
  calculate_payoff (Num.lit 1000) 0 (Num.lit 300) = Ret (4%nat, 0).
Proof.
  apply (zero_rate_payoff_counts_payments 1000 300 4).
  - reflexivity.
  - discriminate.
  - lia.
  - reflexivity.
  - left. discriminate.
Defined.

(** ** Interest *)

Module Charged.






End Charged.



(** ** Higher payments; the two calls of the handler *)

Module Faster.
Import Payoff.




End Faster.



(** X7.  The two calls of the handler do not interfere: [snowball] followed
    by [avalanche] on the same list of records returns the results of the
    two value-level functions on the records as they were before the
    first call, and leaves these records unchanged. *)
Theorem strategies_do_not_interfere :
  forall (h : list loan) (rs : list nat) (ls : list loan) (extra : Qc),
    Store.refers h rs ls ->
    exists snow h1 ava h2,
      Store.snowball rs extra h = Ret (snow, h1) /\
      Store.avalanche rs extra h1 = Ret (ava, h2) /\
      snowball ls extra = Ret snow /\
      avalanche ls extra = Ret ava /\
      Store.refers h2 rs ls /\
      forall r, (r < length h)%nat -> h2 !! r = h !! r.
Proof.
  intros h rs ls extra H.
  assert (forall h', (forall r, (r < length h)%nat -> h' !! r = h !! r) ->
                     Store.refers h' rs ls) as Hkeep.
  { intros h' K. unfold Store.refers in *.
    eapply Forall2_impl; [exact H|]. intros r l Hr. cbn in *.
    rewrite K; [exact Hr|]. now apply lookup_lt_Some in Hr. }
  destruct (sorted_simulate_keeps h balance false rs ls extra H)
    as (snow & h1 & E1 & V1 & K1).
  pose proof (Hkeep h1 K1) as H1.
  destruct (sorted_simulate_keeps h1 rate true rs ls extra H1)
    as (ava & h2 & E2 & V2 & K2).
  exists snow, h1, ava, h2.
  assert (forall r, (r < length h)%nat -> h2 !! r = h !! r) as K.
  { intros r Hr. rewrite K2, K1; [reflexivity|exact Hr|].
    apply lookup_lt_is_Some. rewrite K1 by exact Hr.
    now apply lookup_lt_is_Some. }
  repeat split; try assumption. now apply Hkeep.
Qed.

Lemma strategies_do_not_interfere_witness :
  exists snow h1 ava h2,
    Store.snowball [1; 0]%nat Example.extra [Example.low; Example.high]
    = Ret (snow, h1) /\
    Store.avalanche [1; 0]%nat Example.extra h1 = Ret (ava, h2) /\
    snowball [Example.high; Example.low] Example.extra = Ret snow /\
    avalanche [Example.high; Example.low] Example.extra = Ret ava /\
    Store.refers h2 [1; 0]%nat [Example.high; Example.low] /\
    forall r, (r < length [Example.low; Example.high])%nat ->
              h2 !! r = [Example.low; Example.high] !! r.
Proof.
  apply (strategies_do_not_interfere [Example.low; Example.high]
           [1; 0]%nat [Example.high; Example.low] Example.extra).
  repeat constructor.
Defined.

(** ** The order of the form *)

Module InputOrder.

Section Unique.

Context {A : Type} (key : A -> Qc).

#[local] Instance strictly_antisymm : AntiSymm (=) (strictly_by key).
Proof. intros x y [H1 _] [_ H2]. symmetry. now apply H2. Qed.

Lemma ascending_strictly l :
  distinct_keys key l -> Order.ascending key l -> StronglySorted (strictly_by key) l.
Proof.
  unfold Order.ascending. intros Hd H.
  induction H as [|x l Hl IH Hx]; constructor.
  - apply IH. intros a b Ha Hb. apply Hd; now right.
  - apply Forall_forall. intros y Hy. rewrite Forall_forall in Hx.
    split; [now apply Hx|]. intros Hle.
    apply Hd; [now left|now right|]. apply Qcle_antisym; [now apply Hx|exact Hle].
Qed.

Lemma distinct_keys_perm l1 l2 :
  l1 ≡ₚ l2 -> distinct_keys key l1 -> distinct_keys key l2.
Proof.
  intros P Hd x y Hx Hy. apply Hd; now rewrite P.
Qed.

Lemma stable_sort_perm_eq l1 l2 :
  l1 ≡ₚ l2 -> distinct_keys key l1 ->
  stable_sort key l1 = stable_sort key l2.
Proof.
  intros P Hd.
  apply (StronglySorted_unique (strictly_by key)).
  - apply ascending_strictly; [|apply OrderFacts.stable_sort_ascending].
    eapply distinct_keys_perm; [|exact Hd].
    symmetry. apply OrderFacts.stable_sort_perm.
  - apply ascending_strictly; [|apply OrderFacts.stable_sort_ascending].
    eapply distinct_keys_perm; [|exact Hd].
    rewrite P. symmetry. apply OrderFacts.stable_sort_perm.
  - now rewrite !OrderFacts.stable_sort_perm.
Qed.

Lemma sorted_perm_eq rv l1 l2 :
  l1 ≡ₚ l2 -> distinct_keys key l1 -> sorted key rv l1 = sorted key rv l2.
Proof.
  intros P Hd. unfold sorted. destruct rv; [|now apply stable_sort_perm_eq].
  f_equal. apply stable_sort_perm_eq.
  - now rewrite !reverse_Permutation.
  - eapply distinct_keys_perm; [|exact Hd].
    symmetry. apply reverse_Permutation.
Qed.

End Unique.

End InputOrder.

(** X8.  The order in which the loans are entered does not matter to
    [snowball] when no two different loans share a balance, nor to
    [avalanche] when no two different loans share a rate. *)
Theorem input_order_is_irrelevant :
  forall (loans1 loans2 : list loan) (extra : Qc),
    loans1 ≡ₚ loans2 ->
    (distinct_keys balance loans1 ->
     snowball loans1 extra = snowball loans2 extra) /\
    (distinct_keys rate loans1 ->
     avalanche loans1 extra = avalanche loans2 extra).
Proof.
  intros l1 l2 extra P. split; intros Hd.
  - unfold snowball. now rewrite (InputOrder.sorted_perm_eq balance false l1 l2).
  - unfold avalanche. now rewrite (InputOrder.sorted_perm_eq rate true l1 l2).
Qed.

Lemma input_order_is_irrelevant_witness :
  snowball [Example.low; Example.high] Example.extra
  = snowball [Example.high; Example.low] Example.extra.
Proof.
  apply (input_order_is_irrelevant [Example.low; Example.high]
           [Example.high; Example.low] Example.extra).
  - apply perm_swap.
  - intros x y Hx Hy.
    apply elem_of_cons in Hx as [->|Hx]; apply elem_of_cons in Hy as [->|Hy];
      try apply list_elem_of_singleton in Hx as ->;
      try apply list_elem_of_singleton in Hy as ->;
      try reflexivity; discriminate.
Defined.

(** ** The form *)

Module AppFacts.
Import App.

Lemma check_loan_accepts l :
  bool_decide (name l = "") = false /\
  Num.ltb (balance l) 0 || Num.ltb (rate l) 0 || Num.ltb (min_payment l) 0
  = false
  <-> acceptable l.
Proof.
  unfold acceptable.
  rewrite bool_decide_eq_false, !orb_false_iff, !NumFacts.ltb_ge. tauto.
Qed.

Lemma check_loans_none i loans :
  check_loans i loans = None <-> Forall acceptable loans.
Proof.
  revert i. induction loans as [|l rest IH]; intros i; cbn [check_loans].
  - split; [constructor|reflexivity].
  - rewrite Forall_cons, <- check_loan_accepts, <- (IH (S i)).
    destruct (bool_decide (name l = "")); [intuition discriminate|].
    destruct (Num.ltb (balance l) 0 || Num.ltb (rate l) 0
              || Num.ltb (min_payment l) 0); intuition discriminate.
Qed.

(** A rejection names the first loan that is not acceptable, and says
    what is wrong with it: an empty name comes before a negative value. *)
Lemma check_loans_some i loans r :
  check_loans i loans = Some r ->
  exists k l,
    loans !! k = Some l /\ Forall acceptable (take k loans) /\
    ((r = EmptyName (i + k) /\ name l = "") \/
     (r = NegativeValue (i + k) /\ name l <> "" /\
      (balance l < 0 \/ rate l < 0 \/ min_payment l < 0))).
Proof.
  revert i. induction loans as [|l rest IH]; intros i; cbn [check_loans];
    [discriminate|].
  destruct (bool_decide (name l = "")) eqn:En.
  - intros [= <-]. exists 0%nat, l. apply bool_decide_eq_true in En.
    rewrite Nat.add_0_r. repeat split; [constructor|]. now left.
  - apply bool_decide_eq_false in En.
    destruct (Num.ltb (balance l) 0 || Num.ltb (rate l) 0
              || Num.ltb (min_payment l) 0) eqn:Ev.
    + intros [= <-]. exists 0%nat, l. rewrite Nat.add_0_r.
      repeat split; [constructor|]. right. repeat split; [exact En|].
      rewrite !orb_true_iff, !NumFacts.ltb_lt in Ev. tauto.
    + intros H. destruct (IH (S i) H) as (k & l' & Hk & Htake & Hr).
      exists (S k), l'. split; [exact Hk|]. split.
      * cbn [take]. constructor; [|exact Htake].
        apply check_loan_accepts. now split; [apply bool_decide_eq_false|].
      * now replace (i + S k)%nat with (S i + k)%nat by lia.
Qed.

Lemma validate_none salary debt_budget loans :
  validate salary debt_budget loans = None <->
  0 < salary /\ Forall acceptable loans /\
  total_min_payments loans <= debt_budget.
Proof.
  unfold validate. rewrite <- (check_loans_none 0 loans).
  destruct (Num.leb salary 0) eqn:Es.
  - apply NumFacts.leb_le in Es. split; [discriminate|].
    intros (H & _). exfalso. qc2q. lra.
  - apply NumFacts.leb_gt in Es.
    destruct (check_loans 0 loans); [intuition discriminate|].
    destruct (Num.ltb debt_budget (total_min_payments loans)) eqn:Eb.
    + apply NumFacts.ltb_lt in Eb. split; [discriminate|].
      intros (_ & _ & H). exfalso. qc2q. lra.
    + apply NumFacts.ltb_ge in Eb. intuition.
Qed.

End AppFacts.

Module Budget.
Import App.

Lemma foldl_min_payments a ls :
  foldl (fun acc loan => acc + min_payment loan) a ls
  = a + total_min_payments ls.
Proof.
  unfold total_min_payments. revert a.
  induction ls as [|l ls IH]; intros a; cbn [foldl]; [ring|].
  rewrite (IH (a + min_payment l)), (IH (0 + min_payment l)). ring.
Qed.

Lemma total_min_payments_cons l ls :
  total_min_payments (l :: ls) = min_payment l + total_min_payments ls.
Proof.
  unfold total_min_payments at 1. cbn [foldl].
  rewrite foldl_min_payments. ring.
Qed.

Lemma total_min_payments_perm ls ls' :
  ls ≡ₚ ls' -> total_min_payments ls = total_min_payments ls'.
Proof.
  induction 1 as [|l ls ls' _ IH|l1 l2 ls|ls1 ls2 ls3 _ IH1 _ IH2].
  - reflexivity.
  - now rewrite !total_min_payments_cons, IH.
  - rewrite !total_min_payments_cons. ring.
  - now rewrite IH1.
Qed.

Lemma total_min_payments_terms ls ls' :
  terms <$> ls' = terms <$> ls ->
  total_min_payments ls' = total_min_payments ls.
Proof.
  revert ls'. induction ls as [|l ls IH]; intros [|l' ls']; try discriminate;
    [reflexivity|].
  rewrite !fmap_cons. intros [= _ _ Hm Hrest].
  rewrite !total_min_payments_cons, Hm. f_equal. now apply IH.
Qed.

Lemma minimums_nonneg_terms ls ls' :
  terms <$> ls' = terms <$> ls -> minimums_nonneg ls -> minimums_nonneg ls'.
Proof.
  unfold minimums_nonneg. intros E H.
  apply (Forall_fmap terms (fun t : string * Qc * Qc => 0 <= t.2)).
  rewrite E. now apply Forall_fmap.
Qed.

Lemma total_min_payments_nonneg ls :
  minimums_nonneg ls -> 0 <= total_min_payments ls.
Proof.
  induction 1 as [|l ls Hl _ IH].
  - unfold total_min_payments. cbn. apply Qcle_refl.
  - rewrite total_min_payments_cons. qc2q. lra.
Qed.

(** A loan's turn takes its minimum payment at most. *)
Lemma visit_takes_at_most l ti el :
  0 <= min_payment l -> el - min_payment l <= (Sim.visit l ti el).2.
Proof.
  intros Hm. unfold Sim.visit.
  destruct (Num.leb (balance l) 0); cbn [fst snd].
  - qc2q. lra.
  - cbn [balance set_balance min_payment]. unfold Num.py_min.
    case_cmp; qc2q; lra.
Qed.

Lemma for_loans_takes_at_most ls ti el :
  minimums_nonneg ls ->
  el - total_min_payments ls <= (Sim.for_loans ls ti el).2.
Proof.
  intros H. revert ti el. induction H as [|l rest Hl _ IH]; intros ti el.
  - cbn. unfold total_min_payments. cbn. qc2q. lra.
  - cbn [Sim.for_loans]. rewrite total_min_payments_cons.
    pose proof (visit_takes_at_most l ti el Hl) as Hv.
    destruct (Sim.visit l ti el) as [[l' ti1] el1].
    specialize (IH ti1 el1).
    destruct (Sim.for_loans rest ti1 el1) as [[rest' ti2] el2].
    cbn [fst snd] in *. qc2q. lra.
Qed.

End Budget.

Module Handler.
Import App.

(** A run on loans whose rates are not negative. *)
Lemma simulate_returns ls extra :
  rates_nonneg ls ->
  exists months total_interest,
    simulate ls extra = Ret (months, total_interest) /\
    (months <= cap)%nat /\ 0 <= total_interest.
Proof.
  intros Hr.
  destruct (SimFacts.loop_terminates extra ls 0) as [(s & Hs & Hm) _].
  exists (Sim.months s), (Sim.total_interest s).
  unfold simulate. rewrite Hs. split; [reflexivity|]. split; [exact Hm|].
  eapply (while_loop_invariant _ _
            (fun s => rates_nonneg (Sim.loans s) /\
                      0 <= Sim.total_interest s)); [| |exact Hs].
  - intros s1 s2 [H1 H2] _ B.
    destruct (Invariants.body_total extra s1 s2 H1 B) as [H3 H4].
    split; [exact H3|]. eapply Qcle_trans; eauto.
  - split; [exact Hr|apply Qcle_refl].
Qed.

Lemma acceptable_rates ls ls' :
  ls' ≡ₚ ls -> Forall acceptable ls -> rates_nonneg ls'.
Proof.
  intros P H. unfold rates_nonneg. rewrite P.
  eapply Forall_impl; [exact H|]. now intros l (_ & _ & Hr & _).
Qed.

Lemma acceptable_minimums ls ls' :
  ls' ≡ₚ ls -> Forall acceptable ls -> minimums_nonneg ls'.
Proof.
  intros P H. unfold minimums_nonneg. rewrite P.
  eapply Forall_impl; [exact H|]. now intros l (_ & _ & _ & Hm).
Qed.

End Handler.

(** X9.  The checks of the form let through exactly the inputs with a salary
    above zero, loans that have a name and no negative balance, rate or
    minimum payment, and minimum payments that sum to the debt budget at
    most.  On these the handler returns a plan, with at most 600 months and
    no negative interest for either strategy; on all others it returns
    the rejection and calculates nothing. *)
Theorem validation_accepts_the_documented_domain :
  forall (salary debt_budget : Qc) (loans : list loan),
    (App.validate salary debt_budget loans = None <->
     0 < salary /\ Forall acceptable loans /\
     App.total_min_payments loans <= debt_budget) /\
    (forall r, App.validate salary debt_budget loans = Some r ->
               App.calculate salary debt_budget loans = Ret (inl r)) /\
    (App.validate salary debt_budget loans = None ->
     exists snow ava,
       snowball loans debt_budget = Ret snow /\
       avalanche loans debt_budget = Ret ava /\
       App.calculate salary debt_budget loans
       = Ret (inr (App.Plan snow ava (App.advice ava.2 snow.2))) /\
       (snow.1 <= 600)%nat /\ (ava.1 <= 600)%nat /\
       0 <= snow.2 /\ 0 <= ava.2).
Proof.
  intros salary budget loans.
  split; [apply AppFacts.validate_none|]. split.
  - intros r H. unfold App.calculate. now rewrite H.
  - intros H. pose proof H as Hv.
    apply AppFacts.validate_none in Hv as (_ & Hacc & _).
    destruct (OrderFacts.sorted_spec balance false loans) as [P1 _].
    destruct (OrderFacts.sorted_spec rate true loans) as [P2 _].
    destruct (Handler.simulate_returns (sorted balance false loans) budget)
      as (m1 & t1 & E1 & Hm1 & Ht1);
      [now apply (Handler.acceptable_rates loans)|].
    destruct (Handler.simulate_returns (sorted rate true loans) budget)
      as (m2 & t2 & E2 & Hm2 & Ht2);
      [now apply (Handler.acceptable_rates loans)|].
    exists (m1, t1), (m2, t2).
    unfold App.calculate, snowball, avalanche. rewrite H, E1, E2.
    repeat split; assumption.
Qed.

(** X10.  A rejection names the first check that fails: the salary, then the
    first loan with an empty name or a negative value (for one loan the
    empty name first), then the sum of the minimum payments. *)
Theorem rejection_names_the_first_failure :
  forall (salary debt_budget : Qc) (loans : list loan) (r : App.rejection),
    App.validate salary debt_budget loans = Some r ->
    (r = App.SalaryNotPositive /\ salary <= 0) \/
    (0 < salary /\
     exists k l,
       loans !! k = Some l /\ Forall acceptable (take k loans) /\
       ((r = App.EmptyName k /\ name l = "") \/
        (r = App.NegativeValue k /\ name l <> "" /\
         (balance l < 0 \/ rate l < 0 \/ min_payment l < 0)))) \/
    (0 < salary /\ Forall acceptable loans /\
     debt_budget < App.total_min_payments loans /\
     r = App.MinimumsExceedBudget (App.total_min_payments loans) debt_budget).
Proof.
  intros salary budget loans r. unfold App.validate.
  destruct (Num.leb salary 0) eqn:Es.
  - apply NumFacts.leb_le in Es. intros [= <-]. now left.
  - apply NumFacts.leb_gt in Es.
    destruct (App.check_loans 0 loans) as [r'|] eqn:Ec.
    + intros [= <-]. right. left. split; [exact Es|].
      now apply AppFacts.check_loans_some in Ec.
    + apply AppFacts.check_loans_none in Ec.
      destruct (Num.ltb budget (App.total_min_payments loans)) eqn:Eb;
        [|discriminate].
      apply NumFacts.ltb_lt in Eb. intros [= <-]. right. right. auto.
Qed.

Lemma rejection_names_the_first_failure_witness :
  (App.NegativeValue 1 = App.SalaryNotPositive /\ Num.lit 1000 <= 0) \/
  (0 < Num.lit 1000 /\
   exists k l,
     [Example.low; Loan "odd" (- Num.lit 5) 0 0; Loan "" 0 0 0] !! k = Some l /\
     Forall acceptable
       (take k [Example.low; Loan "odd" (- Num.lit 5) 0 0; Loan "" 0 0 0]) /\
     ((App.NegativeValue 1 = App.EmptyName k /\ name l = "") \/
      (App.NegativeValue 1 = App.NegativeValue k /\ name l <> "" /\
       (balance l < 0 \/ rate l < 0 \/ min_payment l < 0)))) \/
  (0 < Num.lit 1000 /\
   Forall acceptable
     [Example.low; Loan "odd" (- Num.lit 5) 0 0; Loan "" 0 0 0] /\
   Num.lit 200
   < App.total_min_payments
       [Example.low; Loan "odd" (- Num.lit 5) 0 0; Loan "" 0 0 0] /\
   App.NegativeValue 1
   = App.MinimumsExceedBudget
       (App.total_min_payments
          [Example.low; Loan "odd" (- Num.lit 5) 0 0; Loan "" 0 0 0])
       (Num.lit 200)).
Proof.
  apply (rejection_names_the_first_failure (Num.lit 1000) (Num.lit 200)
           [Example.low; Loan "odd" (- Num.lit 5) 0 0; Loan "" 0 0 0]
           (App.NegativeValue 1)).
  reflexivity.
Defined.

(** X11.  With an input the form accepts, the debt budget covers the
    minimum payments of every month of either strategy (of a run on any
    arrangement [ls] of the loans): what is left of the pool after the
    [for] loop is not negative, so that the clamp [max(0, extra_left)]
    returns it as it is.  (The minimum payments are those of the form,
    whole numbers, and the budget is at most 2^53: sums of such payments
    are subtracted from the budget without rounding below them.) *)
Theorem validated_budget_covers_every_month :
  forall (salary debt_budget : Qc) (loans ls : list loan) (n : nat),
    App.validate salary debt_budget loans = None ->
    Forall whole_minimum loans -> debt_budget <= Num.lit (2 ^ 53) ->
    ls ≡ₚ loans ->
    exists s extra_left,
      Sim.after n debt_budget (Sim.init ls) = Ret s /\
      extra_left
      = (Sim.for_loans (Sim.loans s) (Sim.total_interest s) debt_budget).2 /\
      0 <= extra_left /\ Num.py_max 0 extra_left = extra_left.
Proof.
  intros salary budget loans ls n Hv _ _ P.
  apply AppFacts.validate_none in Hv as (_ & Hacc & Hb).
  set (I := fun s : Sim.state =>
              minimums_nonneg (Sim.loans s) /\
              App.total_min_payments (Sim.loans s) <= budget).
  assert (forall s s', I s -> Sim.body budget s = Ret s' -> I s') as Hstep.
  { intros s s' [H1 H2] B.
    destruct (Invariants.body_inv budget s s' B) as (_ & Ht & _).
    split.
    - eapply Budget.minimums_nonneg_terms; eauto.
    - now rewrite (Budget.total_min_payments_terms _ _ Ht). }
  destruct (iterations_total Sim.guard (Sim.body budget) I
              (Invariants.body_step I budget Hstep) n (Sim.init ls))
    as (s & Hs & Hm & Hbud).
  { split; cbn [Sim.loans Sim.init].
    - now apply (Handler.acceptable_minimums loans).
    - now rewrite (Budget.total_min_payments_perm ls loans P). }
  pose proof (Budget.for_loans_takes_at_most (Sim.loans s)
                (Sim.total_interest s) budget Hm) as Hpool.
  exists s. eexists. split; [exact Hs|]. split; [reflexivity|].
  assert (0 <= (Sim.for_loans (Sim.loans s) (Sim.total_interest s) budget).2)
    as Hel by (qc2q; lra).
  split; [exact Hel|].
  unfold Num.py_max. case_cmp; [reflexivity|]. now apply Qcle_antisym.
Qed.

Lemma validated_budget_covers_every_month_witness :
  exists s extra_left,
    Sim.after 2 (Num.lit 200) (Sim.init (sorted rate true Example.loans))
    = Ret s /\
    extra_left
    = (Sim.for_loans (Sim.loans s) (Sim.total_interest s) (Num.lit 200)).2 /\
    0 <= extra_left /\ Num.py_max 0 extra_left = extra_left.
Proof.
  apply (validated_budget_covers_every_month (Num.lit 1000) (Num.lit 200)
           Example.loans (sorted rate true Example.loans) 2).
  - reflexivity.
  - repeat constructor; exists 10%Z; reflexivity.
  - discriminate.
  - apply OrderFacts.sorted_spec.
Defined.

Module Expenses.
Import App.

Lemma get_set {V : Type} (d : list (string * V)) k v k' :
  Dict.get (Dict.set d k v) k'
  = if bool_decide (k = k') then Some v else Dict.get d k'.
Proof.
  induction d as [|[k0 v0] d IH]; cbn [Dict.set Dict.get].
  - reflexivity.
  - destruct (bool_decide (k0 = k)) eqn:E0; cbn [Dict.get].
    + apply bool_decide_eq_true in E0 as ->.
      destruct (bool_decide (k = k')); reflexivity.
    + rewrite IH. apply bool_decide_eq_false in E0.
      destruct (bool_decide (k0 = k')) eqn:E1; [|reflexivity].
      apply bool_decide_eq_true in E1 as ->.
      now rewrite bool_decide_eq_false_2 by congruence.
Qed.

(** A key keeps the place of its first assignment. *)
Lemma keys_set {V : Type} (d : list (string * V)) k v :
  Dict.keys (Dict.set d k v)
  = if bool_decide (k ∈ Dict.keys d) then Dict.keys d
    else Dict.keys d ++ [k].
Proof.
  unfold Dict.keys. induction d as [|[k0 v0] d IH]; cbn [Dict.set].
  - rewrite bool_decide_eq_false_2 by apply not_elem_of_nil. reflexivity.
  - rewrite fmap_cons. cbn [fst].
    destruct (bool_decide (k0 = k)) eqn:E0.
    + apply bool_decide_eq_true in E0 as ->.
      rewrite bool_decide_eq_true_2 by apply list_elem_of_here.
      reflexivity.
    + apply bool_decide_eq_false in E0. rewrite fmap_cons, IH. cbn [fst].
      destruct (bool_decide (k ∈ d.*1)) eqn:E1.
      * apply bool_decide_eq_true in E1.
        rewrite bool_decide_eq_true_2 by (now apply list_elem_of_further).
        reflexivity.
      * apply bool_decide_eq_false in E1.
        rewrite bool_decide_eq_false_2; [reflexivity|].
        rewrite elem_of_cons. intros [->|H]; [now apply E0|now apply E1].
Qed.

Lemma keys_nodup_set {V : Type} (d : list (string * V)) k v :
  NoDup (Dict.keys d) -> NoDup (Dict.keys (Dict.set d k v)).
Proof.
  intros H. rewrite keys_set.
  destruct (bool_decide (k ∈ Dict.keys d)) eqn:E; [exact H|].
  apply bool_decide_eq_false in E.
  apply NoDup_app. split; [exact H|]. split.
  - intros x Hx ->%list_elem_of_singleton. now apply E.
  - apply NoDup_singleton.
Qed.

Lemma add_expense_get d l a label :
  Dict.get (add_expense d (l, a)) label
  = if bool_decide (l <> "" /\ l = label) then Some a else Dict.get d label.
Proof.
  unfold add_expense. cbn [fst snd].
  destruct (bool_decide (l = "")) eqn:El.
  - apply bool_decide_eq_true in El as ->.
    rewrite bool_decide_eq_false_2 by tauto. reflexivity.
  - apply bool_decide_eq_false in El. rewrite get_set.
    destruct (bool_decide (l = label)) eqn:E.
    + apply bool_decide_eq_true in E.
      now rewrite bool_decide_eq_true_2 by tauto.
    + apply bool_decide_eq_false in E.
      now rewrite bool_decide_eq_false_2 by tauto.
Qed.

(** Rows with another label leave the amount of a label as it is. *)
Lemma foldl_other_labels d entries label :
  label ∉ entries.*1 ->
  Dict.get (foldl add_expense d entries) label = Dict.get d label.
Proof.
  revert d. induction entries as [|[l a] rest IH]; intros d; [reflexivity|].
  rewrite fmap_cons, not_elem_of_cons. cbn [fst foldl]. intros [Hne Hrest].
  rewrite (IH _ Hrest), add_expense_get.
  rewrite bool_decide_eq_false_2; [reflexivity|].
  intros [_ ->]. now apply Hne.
Qed.

Lemma foldl_empty_label d entries :
  Dict.get (foldl add_expense d entries) "" = Dict.get d "".
Proof.
  revert d. induction entries as [|[l a] rest IH]; intros d; [reflexivity|].
  cbn [foldl]. rewrite IH, add_expense_get.
  rewrite bool_decide_eq_false_2; [reflexivity|].
  intros [H E]. now apply H.
Qed.

Lemma foldl_keys_nodup d entries :
  NoDup (Dict.keys d) -> NoDup (Dict.keys (foldl add_expense d entries)).
Proof.
  revert d. induction entries as [|[l a] rest IH]; intros d H; [exact H|].
  cbn [foldl]. apply IH. unfold add_expense. cbn [fst snd].
  destruct (bool_decide (l = "")); [exact H|now apply keys_nodup_set].
Qed.

Lemma foldl_sum a (vs : list Qc) : foldl Qcplus a vs = a + foldl Qcplus 0 vs.
Proof.
  revert a. induction vs as [|v vs IH]; intros a; cbn [foldl]; [ring|].
  rewrite (IH (a + v)), (IH (0 + v)). ring.
Qed.

Lemma total_cons k v d :
  total_expenses ((k, v) :: d) = v + total_expenses d.
Proof.
  unfold total_expenses, Dict.values. rewrite fmap_cons. cbn [foldl snd].
  rewrite foldl_sum. ring.
Qed.

Lemma total_set d k v :
  total_expenses (Dict.set d k v)
  = total_expenses d - default 0 (Dict.get d k) + v.
Proof.
  induction d as [|[k0 v0] d IH]; cbn [Dict.set Dict.get].
  - rewrite total_cons. cbn [default from_option]. ring.
  - destruct (bool_decide (k0 = k)).
    + rewrite !total_cons. cbn [default from_option id]. ring.
    + rewrite !total_cons, IH. ring.
Qed.

End Expenses.

(** X13.  The expenses dictionary holds, for each label that is not empty,
    the amount of the last row with that label; rows without a label are
    dropped, and no label occurs twice. *)
Theorem expenses_keep_the_last_amount :
  forall (entries : list (string * Qc)) (label : string),
    NoDup (Dict.keys (App.collect_expenses entries)) /\
    Dict.get (App.collect_expenses entries) "" = None /\
    (label ∉ entries.*1 ->
     Dict.get (App.collect_expenses entries) label = None) /\
    (forall pre amount post,
        label <> "" -> entries = pre ++ (label, amount) :: post ->
        label ∉ post.*1 ->
        Dict.get (App.collect_expenses entries) label = Some amount).
Proof.
  intros entries label. unfold App.collect_expenses.
  split; [|split; [|split]].
  - apply Expenses.foldl_keys_nodup. constructor.
  - now rewrite Expenses.foldl_empty_label.
  - intros H. now rewrite Expenses.foldl_other_labels.
  - intros pre a post Hl -> Hpost.
    rewrite foldl_app. cbn [foldl].
    rewrite Expenses.foldl_other_labels by exact Hpost.
    rewrite Expenses.add_expense_get. now rewrite bool_decide_eq_true_2.
Qed.

(** X14.  A row adds its amount to the total of the expenses and takes away
    the amount its label had before: a label entered twice counts once,
    with its last amount, and keeps its place.  A row without a label
    changes nothing. *)
Theorem repeated_label_replaces_the_amount :
  forall (expenses : list (string * Qc)) (label : string) (amount : Qc),
    (label <> "" ->
     App.total_expenses (App.add_expense expenses (label, amount))
     = App.total_expenses expenses
       - default 0 (Dict.get expenses label) + amount) /\
    (label ∈ Dict.keys expenses ->
     Dict.keys (App.add_expense expenses (label, amount))
     = Dict.keys expenses) /\
    App.add_expense expenses ("", amount) = expenses.
Proof.
  intros d label a. split; [|split; [|reflexivity]].
  - intros Hl. unfold App.add_expense. cbn [fst snd].
    rewrite bool_decide_eq_false_2 by exact Hl. apply Expenses.total_set.
  - intros Hin. unfold App.add_expense. cbn [fst snd].
    destruct (bool_decide (label = "")); [reflexivity|].
    rewrite Expenses.keys_set. now rewrite bool_decide_eq_true_2.
Qed.

(** X12.  When both strategies put the loans in the same order, as they do
    for at most one loan, the handler shows the same result twice and the
    snowball advice: the avalanche advice needs a strictly lower
    interest. *)
Theorem same_order_gives_snowball_advice :
  forall (salary debt_budget : Qc) (loans : list loan),
    App.validate salary debt_budget loans = None ->
    (length loans <= 1)%nat \/
    sorted balance false loans = sorted rate true loans ->
    exists res,
      App.calculate salary debt_budget loans
      = Ret (inr (App.Plan res res App.snowball_advice)).
Proof.
  intros salary budget loans Hv Hsame.
  assert (sorted balance false loans = sorted rate true loans) as E.
  { destruct Hsame as [Hlen|E]; [|exact E].
    destruct loans as [|l [|l' rest]]; [reflexivity..|].
    cbn [length] in Hlen. lia. }
  pose proof Hv as Hv'.
  apply AppFacts.validate_none in Hv' as (_ & Hacc & _).
  destruct (OrderFacts.sorted_spec rate true loans) as [P _].
  destruct (Handler.simulate_returns (sorted rate true loans) budget)
    as (m & t & Hrun & _); [now apply (Handler.acceptable_rates loans)|].
  exists (m, t). unfold App.calculate, snowball, avalanche.
  rewrite Hv, E, Hrun. cbn [bind snd]. unfold App.advice.
  replace (Num.ltb t t) with false; [reflexivity|].
  symmetry. apply NumFacts.ltb_ge, Qcle_refl.
Qed.

Lemma same_order_gives_snowball_advice_witness :
  exists res,
    App.calculate (Num.lit 1000) (Num.lit 200) [Example.low]
    = Ret (inr (App.Plan res res App.snowball_advice)).
Proof.
  apply (same_order_gives_snowball_advice (Num.lit 1000) (Num.lit 200)
           [Example.low]).
  - reflexivity.
  - left. cbn. lia.
Defined.

(** ** The report *)

Module PdfFacts.
Import Pdf.

Lemma ladder_succ y n : ladder y (S n) = y :: ladder (y - 20) n.
Proof.
  unfold ladder. cbn [seq fmap list_fmap]. f_equal; [lia|].
  rewrite <- fmap_S_seq, <- list_fmap_compose.
  apply list_fmap_ext. intros _ k _. cbn. lia.
Qed.

Lemma draw_lines_heights {A : Type} (line : A -> string) xs y :
  height <$> (draw_lines line xs y).1 = ladder y (length xs) /\
  (draw_lines line xs y).2 = (y - 20 * Z.of_nat (length xs))%Z.
Proof.
  revert y. induction xs as [|x xs IH]; intros y.
  - cbn. split; [reflexivity|lia].
  - cbn [draw_lines length]. specialize (IH (y - 20)%Z).
    destruct (draw_lines line xs (y - 20)) as [cs y']. cbn [fst snd] in *.
    destruct IH as [IH1 IH2]. split.
    + rewrite fmap_cons, IH1, ladder_succ. reflexivity.
    + lia.
Qed.

Lemma ladder_descends y n : StronglySorted Z.gt (ladder y n).
Proof.
  revert y. induction n as [|n IH]; intros y.
  - constructor.
  - rewrite ladder_succ. constructor; [apply IH|].
    apply Forall_forall. intros z Hz. unfold ladder in Hz.
    apply list_elem_of_fmap in Hz as (k & -> & _). lia.
Qed.

Lemma ladder_bounds y n z :
  z ∈ ladder y n -> (y - 20 * Z.of_nat n < z <= y)%Z.
Proof.
  unfold ladder. intros (k & -> & Hk)%list_elem_of_fmap.
  apply elem_of_seq in Hk. lia.
Qed.

End PdfFacts.

(** X15.  All the lines of the report are drawn on one page, each lower than
    the one before: the titles at fixed distances and the loans, the
    strategies and the expenses 20 apart.  The height of the "Advice:"
    title is 570 - 20 * (loans + strategies + expenses), which is below
    the bottom of the page (negative) from 29 such lines on. *)
Theorem report_runs_down_one_page :
  forall (money percent : Qc -> string) (count : nat -> string)
         (salary savings : Qc) (debt_plan : list (string * (nat * Qc)))
         (advice : string) (loans : list loan)
         (expenses : list (string * Qc)),
    let n := Z.of_nat (length loans) in
    let m := Z.of_nat (length debt_plan) in
    let e := Z.of_nat (length expenses) in
    Pdf.height
      <$> Pdf.generate_pdf money percent count salary savings debt_plan
            advice loans expenses
    = [750; 730; 710; 690]%Z
      ++ Pdf.ladder 670 (length loans)
      ++ [650 - 20 * n]%Z
      ++ Pdf.ladder (630 - 20 * n) (length debt_plan)
      ++ [610 - 20 * (n + m)]%Z
      ++ Pdf.ladder (590 - 20 * (n + m)) (length expenses)
      ++ [570 - 20 * (n + m + e); 550 - 20 * (n + m + e)]%Z /\
    StronglySorted Z.gt
      (Pdf.height
         <$> Pdf.generate_pdf money percent count salary savings debt_plan
               advice loans expenses) /\
    ((570 - 20 * (n + m + e) < 0)%Z <-> (29 <= n + m + e)%Z).
Proof.
  intros money percent count salary savings plan advice loans expenses n m e.
  assert (Pdf.height
            <$> Pdf.generate_pdf money percent count salary savings plan
                  advice loans expenses
          = [750; 730; 710; 690]%Z
            ++ Pdf.ladder 670 (length loans)
            ++ [650 - 20 * n]%Z
            ++ Pdf.ladder (630 - 20 * n) (length plan)
            ++ [610 - 20 * (n + m)]%Z
            ++ Pdf.ladder (590 - 20 * (n + m)) (length expenses)
            ++ [570 - 20 * (n + m + e); 550 - 20 * (n + m + e)]%Z) as E.
  { unfold Pdf.generate_pdf.
    pose proof (PdfFacts.draw_lines_heights (Pdf.loan_line money percent)
                  loans (690 - 20)) as [H1 H1'].
    destruct (Pdf.draw_lines (Pdf.loan_line money percent) loans (690 - 20))
      as [c1 y1]. cbn [fst snd] in H1, H1'.
    pose proof (PdfFacts.draw_lines_heights (Pdf.plan_line money count)
                  plan (y1 - 40)) as [H2 H2'].
    destruct (Pdf.draw_lines (Pdf.plan_line money count) plan (y1 - 40))
      as [c2 y2]. cbn [fst snd] in H2, H2'.
    pose proof (PdfFacts.draw_lines_heights (Pdf.expense_line money)
                  expenses (y2 - 40)) as [H3 H3'].
    destruct (Pdf.draw_lines (Pdf.expense_line money) expenses (y2 - 40))
      as [c3 y3]. cbn [fst snd] in H3, H3'.
    rewrite !fmap_app, H1, H2, H3. cbn [fmap list_fmap Pdf.height app].
    subst y1 y2 y3. unfold n, m, e.
    repeat (f_equal; try lia). }
  split; [exact E|]. split; [|lia].
  rewrite E.
  repeat first
    [ apply StronglySorted_app_2;
      [ | try apply PdfFacts.ladder_descends | ]
    | constructor ].
  all: try (intros x1 x2 H1 H2;
            repeat match goal with
                   | H : _ ∈ _ ++ _ |- _ => apply elem_of_app in H as [H|H]
                   | H : _ ∈ _ :: _ |- _ => apply elem_of_cons in H as [->|H]
                   | H : _ ∈ [] |- _ => now apply not_elem_of_nil in H
                   | H : _ ∈ Pdf.ladder _ _ |- _ =>
                       apply PdfFacts.ladder_bounds in H
                   end; lia).
  all: lia.
Qed.
